(** * Astro DB: the Vite plugin serving the [astro:db] virtual module

    A shallow embedding of [packages/db/src/core/integration/vite-plugin-db.ts]
    and the properties of its resolver, its module content generators and its
    local table re-creation.

    Conventions of the embedding:
    - a JavaScript string is a [string] (a sequence of character codes);
    - [undefined] / [null] results are [None];
    - an [async] function is a state-and-exception computation ([Async]);
      [await] is the monadic bind;
    - everything the plugin imports from modules that are outside this file
      (constants, path and URL helpers, the DDL generators) is a field of the
      [Host] interface. *)

From Stdlib Require Import String Ascii List Bool NArith Lia Sorted Permutation.
From stdpp Require Import base option list strings gmap.
Import ListNotations.

Local Open Scope string_scope.
Local Open Scope list_scope.

(** ** JavaScript built-ins used by the plugin *)

Module JS.

(** [s.startsWith(p)] *)
Definition startsWith (s p : string) : bool := String.prefix p s.

(** [xs.join(sep)] on an array of strings *)
Definition join (sep : string) (xs : list string) : string :=
  String.concat sep xs.

(** [xs.some(p)] *)
Definition some {A} (p : A -> bool) (xs : list A) : bool := existsb p xs.

(** An ordinary object used as a record of own string-keyed properties.
    The list keeps the properties in the order in which they were created
    (the order of the keys in an object literal). *)
Definition Obj (V : Type) : Type := list (string * V).

Definition digit_of (c : ascii) : option N :=
  let n := N_of_ascii c in
  if (48 <=? n)%N && (n <=? 57)%N then Some (n - 48)%N else None.

Fixpoint digits_value (s : string) (acc : N) : option N :=
  match s with
  | EmptyString => Some acc
  | String c r =>
      match digit_of c with
      | Some d => digits_value r (10 * acc + d)%N
      | None => None
      end
  end.

(** A property key is an array index when it is the canonical decimal
    spelling of an integer in [0, 2^32 - 2]. *)
Definition array_index (k : string) : option N :=
  match k with
  | EmptyString => None
  | String c r =>
      if Ascii.eqb c "0"%char then
        match r with EmptyString => Some 0%N | _ => None end
      else
        match digits_value k 0 with
        | Some n => if (n <=? 4294967294)%N then Some n else None
        | None => None
        end
  end.

Definition is_array_index (k : string) : bool :=
  match array_index k with Some _ => true | None => false end.

Fixpoint insert_index {V} (i : N) (e : string * V)
    (l : list (N * (string * V))) : list (N * (string * V)) :=
  match l with
  | [] => [(i, e)]
  | (j, e') :: r =>
      if (i <? j)%N then (i, e) :: l else (j, e') :: insert_index i e r
  end.

Fixpoint sort_index {V} (l : list (N * (string * V))) :
    list (N * (string * V)) :=
  match l with
  | [] => []
  | (i, e) :: r => insert_index i e (sort_index r)
  end.

Fixpoint index_props {V} (o : Obj V) : list (N * (string * V)) :=
  match o with
  | [] => []
  | (k, v) :: r =>
      match array_index k with
      | Some i => (i, (k, v)) :: index_props r
      | None => index_props r
      end
  end.

Definition named_props {V} (o : Obj V) : Obj V :=
  List.filter (fun kv => negb (is_array_index (fst kv))) o.

(** [Object.entries(o)]: own enumerable string-keyed properties in the
    order of OrdinaryOwnPropertyKeys, that is the array-index keys in
    ascending numeric order followed by every other key in creation
    order. *)
Definition Object_entries {V} (o : Obj V) : list (string * V) :=
  List.map snd (sort_index (index_props o)) ++ named_props o.

(** Characters of a JSON string literal, as [JSON.stringify] quotes
    them. *)
Definition dquote_char : ascii := "034"%char.
Definition backslash : ascii := "092"%char.

Definition hex_digit (n : N) : ascii :=
  ascii_of_N (if (n <? 10)%N then 48 + n else 87 + n)%N.

Definition quote_char (c : ascii) : string :=
  let n := N_of_ascii c in
  if (n =? 8)%N then String backslash "b"
  else if (n =? 9)%N then String backslash "t"
  else if (n =? 10)%N then String backslash "n"
  else if (n =? 12)%N then String backslash "f"
  else if (n =? 13)%N then String backslash "r"
  else if (n =? 34)%N then String backslash (String dquote_char EmptyString)
  else if (n =? 92)%N then String backslash (String backslash EmptyString)
  else if (n <? 32)%N then
    String backslash "u00" +:+
    String (hex_digit (n / 16)) (String (hex_digit (n mod 16)) EmptyString)
  else String c EmptyString.

Fixpoint quote_chars (s : string) : string :=
  match s with
  | EmptyString => EmptyString
  | String c r => quote_char c +:+ quote_chars r
  end.

Definition dquote : string := String dquote_char EmptyString.

(** [JSON.stringify(s)] for a string [s] *)
Definition JSON_stringify_string (s : string) : string :=
  dquote +:+ quote_chars s +:+ dquote.

(** [JSON.stringify(xs)] for an array of strings *)
Definition JSON_stringify_strings (xs : list string) : string :=
  "[" +:+ join "," (List.map JSON_stringify_string xs) +:+ "]".

End JS.

(** ** Exceptions and asynchronous computations *)

(** A thrown JavaScript error, identified by its message. *)
Definition Err : Type := string.

Inductive Outcome (A : Type) : Type :=
| Returned (a : A)
| Thrown (e : Err).

Arguments Returned {A} a.
Arguments Thrown {A} e.

Definition obind {A B} (r : Outcome A) (k : A -> Outcome B) : Outcome B :=
  match r with
  | Returned a => k a
  | Thrown e => Thrown e
  end.

(** ** External collaborators *)

(** A WHATWG [URL] object, identified by its serialisation. *)
Record URL : Type := { href : string }.

(** Everything [vite-plugin-db.ts] imports from other modules. The DDL
    generators of [runtime/queries.ts] may throw on a table definition they
    cannot translate. *)
Class Host : Type := {
  (** [core/types.ts]: one table definition *)
  DBTable : Type;
  (** the configuration state read by the late-bound accessors *)
  Session : Type;
  (** [core/consts.ts] *)
  VIRTUAL_MODULE_ID : string;
  DB_PATH : string;
  RUNTIME_IMPORT : string;
  RUNTIME_CONFIG_IMPORT : string;
  (** [runtime/queries.ts] *)
  SEED_DEV_FILE_NAME : list string;
  getCreateTableQuery : string -> DBTable -> Outcome string;
  getCreateIndexQueries : string -> DBTable -> Outcome (list string);
  (** [core/utils.ts] *)
  getDbDirectoryUrl : URL -> URL;
  (** [getRemoteDatabaseUrl] belongs to [core/utils.ts], whose code is
      not available. The generator calls it with no argument: what it
      returns is a property of the process the generator runs in, and
      [with_remote_url] below is the host of a process in which it
      returns another URL. *)
  getRemoteDatabaseUrl : unit -> string;
  (** [node:path], [node:url], [vite] and the [URL] class *)
  path_resolve : string -> string -> string;
  fileURLToPath : URL -> string;
  normalizePath : string -> string;
  URL_new : string -> URL -> URL;
  URL_pathname : URL -> string;
  (** [SQLiteAsyncDialect.escapeName] *)
  escapeName : string -> string;
  (** [JSON.stringify] of a table definition *)
  JSON_stringify_table : DBTable -> string
}.

(** [JSON.stringify(url)]: a [URL] serialises through [toJSON], which is
    its [href]. *)
Definition JSON_stringify_URL (u : URL) : string :=
  JS.JSON_stringify_string (href u).

(** A drizzle [SQL] object made of one raw string chunk. *)
Inductive SQL : Type := sql_raw (text : string).

(** [sql`...`] for a template without interpolation *)
Definition sql_template (text : string) : SQL := sql_raw text.

Definition sql_text (q : SQL) : string := match q with sql_raw t => t end.

(** The handle returned by [createLocalDatabaseClient({ dbUrl })]. *)
Record SqliteDB : Type := { dbUrl : string }.

Definition createLocalDatabaseClient (url : string) : SqliteDB :=
  {| dbUrl := url |}.

(** [db.run(q)]: a statement that is prepared but not executed until it is
    awaited or handed to [db.batch]. *)
Inductive Pending : Type := db_run (db : SqliteDB) (q : SQL).

Definition pending_sql (p : Pending) : SQL := match p with db_run _ q => q end.

(** The database engine behind the client: [db.batch(stmts)] either commits
    all statements or rejects with an error. *)
Class Engine : Type := {
  Store : Type;
  engine_batch : string -> list SQL -> Store -> Outcome unit * Store
}.

(** The calls made during a run, oldest first: a record kept beside the
    state, to tell which operations a computation went through. *)
Inductive Call : Type :=
| Call_recreateTables (db : SqliteDB)
| Call_batch (db : SqliteDB) (stmts : list Pending).

Section Plugin.

Context {H : Host} {E : Engine}.

Definition DBTables : Type := JS.Obj DBTable.

Record World : Type := {
  session : Session;
  store : Store;
  calls : list Call
}.

(** An [async] function body. *)
Definition Async (A : Type) : Type := World -> Outcome A * World.

Definition ret {A} (a : A) : Async A := fun w => (Returned a, w).

Definition throw {A} (e : Err) : Async A := fun w => (Thrown e, w).

Definition await {A B} (m : Async A) (k : A -> Async B) : Async B :=
  fun w =>
    match m w with
    | (Returned a, w') => k a w'
    | (Thrown e, w') => (Thrown e, w')
    end.

Definition lift {A} (r : Outcome A) : Async A := fun w => (r, w).

Definition observe (c : Call) : Async unit :=
  fun w =>
    (Returned tt,
     {| session := session w; store := store w; calls := calls w ++ [c] |}).

(** [await db.batch(stmts)] *)
Definition db_batch (db : SqliteDB) (stmts : list Pending) : Async unit :=
  await (observe (Call_batch db stmts)) (fun _ w =>
    let '(r, s) := engine_batch (dbUrl db) (List.map pending_sql stmts) (store w) in
    (r, {| session := session w; store := s; calls := calls w |})).

(** *** [recreateTables] *)

Definition dropQuery (name : string) : SQL :=
  sql_raw ("DROP TABLE IF EXISTS " +:+ escapeName name).

(** The body of the [for ... of Object.entries(tables)] loop, threading
    the [setupQueries] array. *)
Fixpoint setup_loop (entries : list (string * DBTable))
    (setupQueries : list SQL) : Outcome (list SQL) :=
  match entries with
  | [] => Returned setupQueries
  | (name, table) :: rest =>
      obind (getCreateTableQuery name table) (fun createText =>
      obind (getCreateIndexQueries name table) (fun indexQueries =>
      setup_loop rest
        (setupQueries ++
           dropQuery name :: sql_raw createText :: List.map sql_raw indexQueries)))
  end.

Definition defer_foreign_keys : SQL :=
  sql_template "pragma defer_foreign_keys=true;".

Definition recreateTables (db : SqliteDB) (tables : DBTables) : Async unit :=
  await (observe (Call_recreateTables db)) (fun _ =>
  await (lift (setup_loop (JS.Object_entries tables) [])) (fun setupQueries =>
  db_batch db (db_run db defer_foreign_keys :: List.map (db_run db) setupQueries))).

(** *** Module content generators *)

(** An element of [Array<string | URL>]. *)
Inductive SeedRef : Type :=
| seed_string (s : string)
| seed_URL (u : URL).

Definition nl : string := String "010"%char EmptyString.
Definition tab : string := String "009"%char EmptyString.

Definition getConfigVirtualModContents : string :=
  "export * from " +:+ RUNTIME_CONFIG_IMPORT.

(** One element of the [map] in [getStringifiedCollectionExports]. *)
Definition collection_export (entry : string * DBTable) : string :=
  let '(name, collection) := entry in
  "export const " +:+ name +:+ " = asDrizzleTable(" +:+
  JS.JSON_stringify_string name +:+ ", " +:+
  JSON_stringify_table collection +:+ ", false)".

Definition getStringifiedCollectionExports (tables : DBTables) : string :=
  JS.join nl (List.map collection_export (JS.Object_entries tables)).

Definition userSeedFilePaths : list string :=
  List.map
    (fun name =>
       URL_pathname (URL_new name (getDbDirectoryUrl {| href := "file:///" |})))
    SEED_DEV_FILE_NAME.

(** The local [resolveId] helper of [getLocalVirtualModContents]. *)
Definition resolveSeedId (root : URL) (id : string) : string :=
  if JS.startsWith id "." then path_resolve (fileURLToPath root) id else id.

Definition integrationSeedFilePath (root : URL) (pathOrUrl : SeedRef) : string :=
  match pathOrUrl with
  | seed_string s => resolveSeedId root s
  | seed_URL u => URL_pathname u
  end.

Definition integrationSeedFilePaths (root : URL) (seedFiles : list SeedRef) :
    list string :=
  List.map (integrationSeedFilePath root) seedFiles.

Definition seedImport (filePath : string) : string :=
  "() => import(" +:+ JS.JSON_stringify_string filePath +:+ ")".

Definition integrationSeedImports (root : URL) (seedFiles : list SeedRef) :
    list string :=
  List.map seedImport (integrationSeedFilePaths root seedFiles).

(** The text substituted for the seed slot when [shouldSeed] holds. *)
Definition seedLocalCall (root : URL) (seedFiles : list SeedRef) : string :=
  "await seedLocal({" +:+ nl +:+
  tab +:+ "userSeedGlob: import.meta.glob(" +:+
  JS.JSON_stringify_strings userSeedFilePaths +:+ ", { eager: true })," +:+ nl +:+
  tab +:+ "integrationSeedImports: [" +:+
  JS.join "," (integrationSeedImports root seedFiles) +:+ "]," +:+ nl +:+
  "});".

Definition seedLocalImport : string :=
  "import { seedLocal } from " +:+ RUNTIME_IMPORT +:+ ";".

Definition dbExport : string :=
  "export const db = createLocalDatabaseClient({ dbUrl });".

Definition getLocalVirtualModContents (tables : DBTables) (root : URL)
    (seedFiles : list SeedRef) (shouldSeed : bool) : string :=
  let dbUrl := URL_new DB_PATH root in
  nl +:+
  "import { asDrizzleTable, createLocalDatabaseClient } from " +:+
  RUNTIME_IMPORT +:+ ";" +:+ nl +:+
  (if shouldSeed then seedLocalImport else EmptyString) +:+ nl +:+
  nl +:+
  "const dbUrl = " +:+ JSON_stringify_URL dbUrl +:+ ";" +:+ nl +:+
  dbExport +:+ nl +:+
  nl +:+
  (if shouldSeed then seedLocalCall root seedFiles else EmptyString) +:+ nl +:+
  nl +:+
  "export * from " +:+ RUNTIME_CONFIG_IMPORT +:+ ";" +:+ nl +:+
  nl +:+
  getStringifiedCollectionExports tables.

(** The endpoint argument of the remote client constructor. *)
Definition remoteUrlExpression : string :=
  "import.meta.env.ASTRO_STUDIO_REMOTE_DB_URL ?? " +:+
  JS.JSON_stringify_string (getRemoteDatabaseUrl tt).

Definition getStudioVirtualModContents (tables : DBTables) (appToken : string) :
    string :=
  nl +:+
  "import {asDrizzleTable, createRemoteDatabaseClient} from " +:+
  RUNTIME_IMPORT +:+ ";" +:+ nl +:+
  nl +:+
  "export const db = await createRemoteDatabaseClient(" +:+
  JS.JSON_stringify_string appToken +:+ ", " +:+ remoteUrlExpression +:+ ");" +:+ nl +:+
  nl +:+
  "export * from " +:+ RUNTIME_CONFIG_IMPORT +:+ ";" +:+ nl +:+
  nl +:+
  getStringifiedCollectionExports tables +:+ nl +:+
  tab.

(** *** The plugin *)

Definition WITH_SEED_VIRTUAL_MODULE_ID : string := "astro:db:seed".

Definition NUL : string := String "000"%char EmptyString.

Record Resolved : Type := { virtual : string; seedVirtual : string }.

Definition resolved : Resolved :=
  {| virtual := NUL +:+ VIRTUAL_MODULE_ID;
     seedVirtual := NUL +:+ WITH_SEED_VIRTUAL_MODULE_ID |}.

Record LateTables : Type := { tables_get : Session -> DBTables }.

Record LateSeedFiles : Type := { seedFiles_get : Session -> list SeedRef }.

Inductive VitePluginDBParams : Type :=
| LocalParams (tables : LateTables) (seedFiles : LateSeedFiles)
    (srcDir root : URL)
| StudioParams (tables : LateTables) (appToken : string)
    (srcDir root : URL).

Definition connectToStudio (params : VitePluginDBParams) : bool :=
  match params with
  | LocalParams _ _ _ _ => false
  | StudioParams _ _ _ _ => true
  end.

Definition params_tables (params : VitePluginDBParams) : LateTables :=
  match params with
  | LocalParams t _ _ _ => t
  | StudioParams t _ _ _ => t
  end.

Definition params_srcDir (params : VitePluginDBParams) : URL :=
  match params with
  | LocalParams _ _ s _ => s
  | StudioParams _ _ s _ => s
  end.

Definition params_root (params : VitePluginDBParams) : URL :=
  match params with
  | LocalParams _ _ _ r => r
  | StudioParams _ _ _ r => r
  end.

(** What the bundler's [this.resolve] yields for a module. *)
Record ResolvedId : Type := { id : string }.

(** The plugin context: [this.resolve(source)] is [None] when the source
    cannot be resolved. *)
Record PluginContext : Type := { this_resolve : string -> option ResolvedId }.

Definition srcDirPath (params : VitePluginDBParams) : string :=
  normalizePath (fileURLToPath (params_srcDir params)).

Definition seedFilePaths (params : VitePluginDBParams) : list string :=
  List.map
    (fun name =>
       normalizePath
         (fileURLToPath (URL_new name (getDbDirectoryUrl (params_root params)))))
    SEED_DEV_FILE_NAME.

(** A string is falsy exactly when it is empty. *)
Definition truthy (s : option string) : option string :=
  match s with
  | Some EmptyString => None
  | other => other
  end.

Definition resolveId (params : VitePluginDBParams) (this : PluginContext)
    (id_ : string) (rawImporter : option string) : option string :=
  if negb (String.eqb id_ VIRTUAL_MODULE_ID) then None
  else if connectToStudio params then Some (virtual resolved)
  else
    let importer :=
      match truthy rawImporter with
      | Some raw => this_resolve this raw
      | None => None
      end in
    match importer with
    | None => Some (virtual resolved)
    | Some importer =>
        if JS.startsWith (id importer) (srcDirPath params)
        then Some (seedVirtual resolved)
        else Some (virtual resolved)
    end.

Definition get_session : Async Session := fun w => (Returned (session w), w).

Definition load (params : VitePluginDBParams) (id_ : string) :
    Async (option string) :=
  await
    (if JS.some (fun f => String.eqb id_ f) (seedFilePaths params) then
       await get_session (fun s =>
       recreateTables
         (createLocalDatabaseClient (href (URL_new DB_PATH (params_root params))))
         (tables_get (params_tables params) s))
     else ret tt)
    (fun _ =>
       if negb (String.eqb id_ (virtual resolved)) &&
          negb (String.eqb id_ (seedVirtual resolved))
       then ret None
       else
         match params with
         | StudioParams tables appToken _ _ =>
             await get_session (fun s =>
             ret (Some (getStudioVirtualModContents (tables_get tables s) appToken)))
         | LocalParams tables seedFiles _ root =>
             await get_session (fun s =>
             ret (Some (getLocalVirtualModContents
                          (tables_get tables s) root (seedFiles_get seedFiles s)
                          (String.eqb id_ (seedVirtual resolved)))))
         end).

Record VitePlugin : Type := {
  name : string;
  enforce : string;
  plugin_resolveId : PluginContext -> string -> option string -> option string;
  plugin_load : string -> Async (option string)
}.

Definition vitePluginDb (params : VitePluginDBParams) : VitePlugin :=
  {| name := "astro:db";
     enforce := "pre";
     plugin_resolveId := resolveId params;
     plugin_load := load params |}.

End Plugin.

(** ** The embedded database *)

Module LocalDb.

(** Modelled from the spec: the code of the embedded database client
    behind [db.batch] is not available. The specification gives it only at
    its boundary: a batch runs DROP-IF-EXISTS, CREATE and
    CREATE-INDEX statements in order under deferred foreign-key checking,
    validates referential integrity once, when it commits, and applies
    all of its statements or none. The model keeps, for every table,
    the text that created it, the indexes created on it and its rows. *)
Inductive Statement : Type :=
| DeferForeignKeys
| DropTableIfExists (table : string)
| CreateTable (table : string) (ddl : string)
| CreateIndex (index : string) (table : string).

Record TableState : Type := {
  definition : string;
  indexes : list string;
  rows : list (list string)
}.

Abbreviation Db := (gmap string TableState).

(** Modelled from the spec: the effect of one statement; [None] is a
    database error. Creating a table that exists is an error, and so is an
    index on a table that does not exist. *)
Definition step (st : Statement) (d : Db) : option Db :=
  match st with
  | DeferForeignKeys => Some d
  | DropTableIfExists n => Some (delete n d)
  | CreateTable n ddl =>
      match d !! n with
      | Some _ => None
      | None => Some (<[n := {| definition := ddl; indexes := []; rows := [] |}]> d)
      end
  | CreateIndex i n =>
      match d !! n with
      | Some t =>
          Some (<[n := {| definition := definition t;
                          indexes := indexes t ++ [i];
                          rows := rows t |}]> d)
      | None => None
      end
  end.

Fixpoint run (sts : list Statement) (d : Db) : option Db :=
  match sts with
  | [] => Some d
  | st :: rest =>
      match step st d with
      | Some d' => run rest d'
      | None => None
      end
  end.

(** The statements of a batch as the engine reads them; [None] when some
    text is not a statement the engine accepts. *)
Fixpoint read (parse : string -> option Statement) (qs : list SQL) :
    option (list Statement) :=
  match qs with
  | [] => Some []
  | q :: rest =>
      match parse (sql_text q), read parse rest with
      | Some st, Some sts => Some (st :: sts)
      | _, _ => None
      end
  end.

(** Modelled from the spec: a batch is all-or-nothing, and the
    constraints deferred by the first statement are checked once, on the
    state the statements lead to, when the batch commits. [valid] is that
    check: the foreign keys of a schema are part of the text of its
    tables, which the model does not read, so the check is a parameter
    of the engine. A batch whose final state fails it is a constraint
    violation and leaves the database as it was. *)
Definition batch (parse : string -> option Statement) (valid : Db -> bool)
    (url : string) (qs : list SQL) (d : Db) : Outcome unit * Db :=
  match read parse qs with
  | None => (Thrown "SQLITE_ERROR: statement not accepted", d)
  | Some sts =>
      match run sts d with
      | Some d' =>
          if valid d' then (Returned tt, d')
          else (Thrown "SQLITE_CONSTRAINT: FOREIGN KEY constraint failed", d)
      | None => (Thrown "SQLITE_ERROR: batch rejected", d)
      end
  end.

Definition engine (parse : string -> option Statement) (valid : Db -> bool) :
    Engine :=
  {| Store := Db; engine_batch := batch parse valid |}.

(** The engine reads the statements generated for one table as what they
    are meant to be: the DROP as a drop of that table, the CREATE as a
    creation of that table (or it rejects it), every index statement as
    an index on that table (or it rejects it). *)
Definition reads_create (parse : string -> option Statement)
    (n : string) (text : string) : bool :=
  match parse text with
  | Some (CreateTable n' ddl) => String.eqb n' n
  | Some _ => false
  | None => true
  end.

Definition reads_index (parse : string -> option Statement)
    (n : string) (text : string) : bool :=
  match parse text with
  | Some (CreateIndex _ n') => String.eqb n' n
  | Some _ => false
  | None => true
  end.

Definition reads_drop (parse : string -> option Statement)
    (n : string) (text : string) : bool :=
  match parse text with
  | Some (DropTableIfExists n') => String.eqb n' n
  | _ => false
  end.

Definition reads_pragma (parse : string -> option Statement)
    (text : string) : bool :=
  match parse text with
  | Some DeferForeignKeys => true
  | _ => false
  end.

End LocalDb.

Section Understood.

Context {H : Host}.

Definition understands_table (parse : string -> option LocalDb.Statement)
    (entry : string * DBTable) : bool :=
  let '(n, t) := entry in
  LocalDb.reads_drop parse n (sql_text (dropQuery n)) &&
  match getCreateTableQuery n t with
  | Returned text => LocalDb.reads_create parse n text
  | Thrown _ => true
  end &&
  match getCreateIndexQueries n t with
  | Returned texts => forallb (LocalDb.reads_index parse n) texts
  | Thrown _ => true
  end.

Definition understands (parse : string -> option LocalDb.Statement)
    (tables : JS.Obj DBTable) : bool :=
  LocalDb.reads_pragma parse (sql_text defer_foreign_keys) &&
  forallb (understands_table parse) tables.

End Understood.

Module LocalDbBlocks.

Import LocalDb.

(** The statements of one table as the engine reads them. *)
Definition table_block (n ddl : string) (idxs : list string) : list Statement :=
  DropTableIfExists n :: CreateTable n ddl ::
  List.map (fun i => CreateIndex i n) idxs.

(** The state of a table that was just re-created. *)
Definition fresh (ddl : string) (idxs : list string) : TableState :=
  {| definition := ddl; indexes := idxs; rows := [] |}.

(** A statement list made of the blocks of the tables [names], in order. *)
Inductive blocks : list string -> list Statement -> Prop :=
| blocks_nil : blocks [] []
| blocks_cons n ddl idxs names sts :
    blocks names sts ->
    blocks (n :: names) (table_block n ddl idxs ++ sts).

End LocalDbBlocks.

(** ** A concrete host

    The interface instantiated for a project on a POSIX file system whose
    paths are plain (no dot segments, no characters that a URL would
    escape), with the constants of the [@astrojs/db] package. It is the
    host at which the executable examples below are evaluated. *)

Module Demo.

(** A table definition reduced to the parts the generators print: the
    columns with their SQL types and the indexes with their column. *)
Record Table : Type := {
  columns : list (string * string);
  table_indexes : list (string * string)
}.

Definition esc (n : string) : string := JS.dquote +:+ n +:+ JS.dquote.

Definition column_sql (c : string * string) : string :=
  esc (fst c) +:+ " " +:+ snd c.

Definition createTableQuery (n : string) (t : Table) : Outcome string :=
  if existsb (fun c => String.eqb (snd c) EmptyString) (columns t)
  then Thrown ("Unsupported column type in table " +:+ n)
  else Returned ("CREATE TABLE " +:+ esc n +:+ " (" +:+
                 JS.join ", " (List.map column_sql (columns t)) +:+ ")").

Definition createIndexQueries (n : string) (t : Table) : Outcome (list string) :=
  Returned
    (List.map
       (fun i => "CREATE INDEX " +:+ esc (fst i) +:+ " ON " +:+ esc n +:+
                 " (" +:+ esc (snd i) +:+ ")")
       (table_indexes t)).

Definition table_json (t : Table) : string :=
  "{" +:+ JS.JSON_stringify_string "columns" +:+ ":{" +:+
  JS.join ","
    (List.map
       (fun c => JS.JSON_stringify_string (fst c) +:+ ":" +:+
                 JS.JSON_stringify_string (snd c))
       (columns t)) +:+
  "}}".

Fixpoint drop_chars (n : nat) (s : string) : string :=
  match n, s with
  | S m, String _ r => drop_chars m r
  | _, _ => s
  end.

Definition join_url (rel : string) (base : URL) : URL :=
  {| href := href base +:+ rel |}.

Definition file_path (u : URL) : string := drop_chars 7 (href u).

Definition resolve_path (base rel : string) : string :=
  if String.prefix "/" rel then rel
  else base +:+ (if String.prefix "./" rel then drop_chars 2 rel else rel).

#[global] Instance host : Host := {|
  DBTable := Table;
  Session := JS.Obj Table * list SeedRef;
  VIRTUAL_MODULE_ID := "astro:db";
  DB_PATH := ".astro/content.db";
  RUNTIME_IMPORT := JS.JSON_stringify_string "@astrojs/db/runtime";
  RUNTIME_CONFIG_IMPORT := JS.JSON_stringify_string "@astrojs/db/dist/runtime/config.js";
  SEED_DEV_FILE_NAME := ["seed.ts"; "seed.js"; "seed.mjs"; "seed.mts"];
  getCreateTableQuery := createTableQuery;
  getCreateIndexQueries := createIndexQueries;
  getDbDirectoryUrl := join_url "db/";
  getRemoteDatabaseUrl := fun _ => "https://db.services.astro.build";
  path_resolve := resolve_path;
  fileURLToPath := file_path;
  normalizePath := fun p => p;
  URL_new := join_url;
  URL_pathname := file_path;
  escapeName := esc;
  JSON_stringify_table := table_json
|}.

(** The engine's reader for the statements the generators above print. *)
Definition strip (p s : string) : option string :=
  if String.prefix p s then Some (drop_chars (String.length p) s) else None.

Fixpoint until_quote (s : string) : option (string * string) :=
  match s with
  | EmptyString => None
  | String c r =>
      if Ascii.eqb c JS.dquote_char then Some (EmptyString, r)
      else match until_quote r with
           | Some (w, rest) => Some (String c w, rest)
           | None => None
           end
  end.

Definition quoted (s : string) : option (string * string) :=
  match s with
  | String c r => if Ascii.eqb c JS.dquote_char then until_quote r else None
  | EmptyString => None
  end.

Definition parse (text : string) : option LocalDb.Statement :=
  if String.eqb text "pragma defer_foreign_keys=true;" then
    Some LocalDb.DeferForeignKeys
  else
    match strip "DROP TABLE IF EXISTS " text with
    | Some r =>
        match quoted r with
        | Some (n, EmptyString) => Some (LocalDb.DropTableIfExists n)
        | _ => None
        end
    | None =>
        match strip "CREATE TABLE " text with
        | Some r =>
            match quoted r with
            | Some (n, _) => Some (LocalDb.CreateTable n text)
            | None => None
            end
        | None =>
            match strip "CREATE INDEX " text with
            | Some r =>
                match quoted r with
                | Some (i, r') =>
                    match strip " ON " r' with
                    | Some r'' =>
                        match quoted r'' with
                        | Some (n, _) => Some (LocalDb.CreateIndex i n)
                        | None => None
                        end
                    | None => None
                    end
                | None => None
                end
            | None => None
            end
        end
    end.

(** The foreign keys of the schemas of the examples, as pairs of the
    referring and the referred table: the second column of the referring
    table holds a key of the referred table, whose first column is its
    key. *)
Definition foreign_keys : list (string * string) :=
  [("posts", "users"); ("comments", "posts")].

Definition rows_of (d : LocalDb.Db) (n : string) : list (list string) :=
  match d !! n with
  | Some t => LocalDb.rows t
  | None => []
  end.

Definition has_key (d : LocalDb.Db) (n key : string) : bool :=
  existsb (fun row => match row with
                      | k :: _ => String.eqb k key
                      | [] => false
                      end)
    (rows_of d n).

Definition refers (d : LocalDb.Db) (fk : string * string) : bool :=
  forallb (fun row => match row with
                      | _ :: key :: _ => has_key d (snd fk) key
                      | _ => true
                      end)
    (rows_of d (fst fk)).

(** Referential integrity of a database under these foreign keys. *)
Definition valid (d : LocalDb.Db) : bool := forallb (refers d) foreign_keys.

#[global] Instance engine : Engine := LocalDb.engine parse valid.

Definition users : Table :=
  {| columns := [("id", "integer"); ("name", "text")];
     table_indexes := [("users_name_idx", "name")] |}.

Definition posts : Table :=
  {| columns := [("id", "integer"); ("author", "integer")];
     table_indexes := [] |}.

Definition broken : Table :=
  {| columns := [("id", EmptyString)]; table_indexes := [] |}.

Definition tables : JS.Obj Table := [("users", users); ("posts", posts)].

(** Mappings whose only key is not an identifier but a piece of code. *)
Definition seed_call_name : string := "a = await seedLocal({}), b".
Definition glob_name : string := "a = import.meta.glob('/db/seed.ts'), b".

Definition seed_call_tables : JS.Obj Table := [(seed_call_name, users)].
Definition glob_tables : JS.Obj Table := [(glob_name, users)].

Definition root : URL := {| href := "file:///proj/" |}.
Definition srcDir : URL := {| href := "file:///proj/src/" |}.

Definition late_tables : LateTables := {| tables_get := fst |}.
Definition late_seeds : LateSeedFiles := {| seedFiles_get := snd |}.

Definition local_params : VitePluginDBParams :=
  LocalParams late_tables late_seeds srcDir root.

Definition studio_params : VitePluginDBParams :=
  StudioParams late_tables "token-123" srcDir root.

Definition world (ts : JS.Obj Table) (seeds : list SeedRef) : World :=
  {| session := (ts, seeds); store := (∅ : gmap string LocalDb.TableState); calls := [] |}.

(** A bundler context that resolves every module to itself. *)
Definition this : PluginContext :=
  {| this_resolve := fun source => Some {| id := source |} |}.

(** A mapping declared with a table whose name is an array index. *)
Definition numeric_tables : JS.Obj Table := [("users", users); ("7", posts)].

(** The path of the project's [db/seed.ts]. *)
Definition seed_ts : string := "/proj/db/seed.ts".

(** The client of the project's local database file. *)
Definition client : SqliteDB :=
  createLocalDatabaseClient "file:///proj/.astro/content.db".

End Demo.

(** ** Vocabulary of the specification *)

Section Vocabulary.

Context {H : Host} {E : Engine}.

(** The statements the specification lists for one table: its
    DROP-IF-EXISTS, its CREATE and its CREATE-INDEX statements in order. *)
Definition table_statements (entry : string * DBTable) : Outcome (list SQL) :=
  let '(n, t) := entry in
  obind (getCreateTableQuery n t) (fun createText =>
  obind (getCreateIndexQueries n t) (fun indexQueries =>
  Returned (dropQuery n :: sql_raw createText :: List.map sql_raw indexQueries))).

(** The statements of all tables, table after table. *)
Fixpoint all_statements (entries : list (string * DBTable)) : Outcome (list SQL) :=
  match entries with
  | [] => Returned []
  | e :: rest =>
      obind (table_statements e) (fun b =>
      obind (all_statements rest) (fun bs => Returned (b ++ bs)))
  end.

(** The batch the specification describes for a list of tables. *)
Definition described_batch (db : SqliteDB) (entries : list (string * DBTable))
    (stmts : list Pending) : Prop :=
  exists qs, all_statements entries = Returned qs /\
             stmts = List.map (db_run db) (defer_foreign_keys :: qs).

(** The calls a computation adds to the log of a world. *)
Definition calls_after {A} (m : Async A) (w : World) : list Call :=
  calls (snd (m w)).

(** The world after one more observed call. *)
Definition logged (c : Call) (w : World) : World :=
  {| session := session w; store := store w; calls := calls w ++ [c] |}.

(** The importer resolves to a module under the source directory. *)
Definition importer_in_src (params : VitePluginDBParams) (this : PluginContext)
    (rawImporter : option string) : Prop :=
  exists raw r,
    rawImporter = Some raw /\ raw <> EmptyString /\
    this_resolve this raw = Some r /\
    JS.startsWith (id r) (srcDirPath params) = true.

(** [piece] occurs in [text] at offset [pos]. *)
Definition occurs_at (piece text : string) (pos : nat) : Prop :=
  String.substring pos (String.length piece) text = piece.

(** The local database client [load] builds for a resynchronisation. *)
Definition local_client (params : VitePluginDBParams) : SqliteDB :=
  createLocalDatabaseClient (href (URL_new DB_PATH (params_root params))).

(** What [load] returns once the seed-file step is over, in a session [s]:
    nothing for an id that is not one of the two virtual ids, else the
    module text of the execution mode. *)
Definition load_result (params : VitePluginDBParams) (id_ : string)
    (s : Session) : option string :=
  if negb (String.eqb id_ (virtual resolved)) &&
     negb (String.eqb id_ (seedVirtual resolved))
  then None
  else
    match params with
    | StudioParams tables appToken _ _ =>
        Some (getStudioVirtualModContents (tables_get tables s) appToken)
    | LocalParams tables seedFiles _ root =>
        Some (getLocalVirtualModContents
                (tables_get tables s) root (seedFiles_get seedFiles s)
                (String.eqb id_ (seedVirtual resolved)))
    end.

(** [load] invoked [recreateTables] on the client [db]. *)
Definition invokes_recreateTables (params : VitePluginDBParams) (id_ : string)
    (w : World) (db : SqliteDB) : Prop :=
  exists later,
    calls_after (load params id_) w = calls w ++ Call_recreateTables db :: later.

End Vocabulary.

(** *** Template literals

    A template literal is a sequence of fragments: the literal text written
    in the source and the values substituted into it. The text it denotes
    is the concatenation of the fragments. *)
Inductive Fragment : Type :=
| Lit (s : string)
| Val (s : string).

Definition fragment_text (f : Fragment) : string :=
  match f with Lit s => s | Val s => s end.

Fixpoint render (fs : list Fragment) : string :=
  match fs with
  | [] => EmptyString
  | f :: rest => fragment_text f +:+ render rest
  end.

(** The number of occurrences of [piece] in [text]. *)
Fixpoint occurrences (piece text : string) : nat :=
  (if String.prefix piece text then 1 else 0) +
  match text with
  | EmptyString => 0
  | String _ rest => occurrences piece rest
  end.

(** The number of times the literal text of a template writes [piece]. *)
Fixpoint written (piece : string) (fs : list Fragment) : nat :=
  match fs with
  | [] => 0
  | Lit s :: rest => occurrences piece s + written piece rest
  | Val _ :: rest => written piece rest
  end.

(** [parts.join(sep)] on templates. *)
Fixpoint separated (sep : Fragment) (parts : list (list Fragment)) :
    list Fragment :=
  match parts with
  | [] => []
  | [p] => p
  | p :: rest => p ++ sep :: separated sep rest
  end.

Section Templates.

Context {H : Host}.

Definition configExport : string :=
  "export * from " +:+ RUNTIME_CONFIG_IMPORT +:+ ";".

Definition globImport : string :=
  "import.meta.glob(" +:+ JS.JSON_stringify_strings userSeedFilePaths +:+
  ", { eager: true })".

Definition collection_export_template (entry : string * DBTable) :
    list Fragment :=
  let '(name, collection) := entry in
  [Lit "export const "; Val name; Lit " = asDrizzleTable(";
   Val (JS.JSON_stringify_string name); Lit ", ";
   Val (JSON_stringify_table collection); Lit ", false)"].

Definition exports_template (tables : JS.Obj DBTable) : list Fragment :=
  separated (Lit nl)
    (List.map collection_export_template (JS.Object_entries tables)).

Definition seedImport_template (filePath : string) : list Fragment :=
  [Lit "() => import("; Val (JS.JSON_stringify_string filePath); Lit ")"].

Definition seedLocalCall_template (root : URL) (seedFiles : list SeedRef) :
    list Fragment :=
  [Lit ("await seedLocal({" +:+ nl +:+ tab +:+ "userSeedGlob: import.meta.glob(");
   Val (JS.JSON_stringify_strings userSeedFilePaths);
   Lit (", { eager: true })," +:+ nl +:+ tab +:+ "integrationSeedImports: [")] ++
  separated (Lit ",")
    (List.map seedImport_template (integrationSeedFilePaths root seedFiles)) ++
  [Lit ("]," +:+ nl +:+ "});")].

Definition seedLocalImport_template : list Fragment :=
  [Lit "import { seedLocal } from "; Val RUNTIME_IMPORT; Lit ";"].

Definition local_template (tables : JS.Obj DBTable) (root : URL)
    (seedFiles : list SeedRef) (shouldSeed : bool) : list Fragment :=
  [Lit (nl +:+ "import { asDrizzleTable, createLocalDatabaseClient } from ");
   Val RUNTIME_IMPORT; Lit (";" +:+ nl)] ++
  (if shouldSeed then seedLocalImport_template else []) ++
  [Lit (nl +:+ nl +:+ "const dbUrl = ");
   Val (JSON_stringify_URL (URL_new DB_PATH root));
   Lit (";" +:+ nl +:+ dbExport +:+ nl +:+ nl)] ++
  (if shouldSeed then seedLocalCall_template root seedFiles else []) ++
  [Lit (nl +:+ nl +:+ "export * from "); Val RUNTIME_CONFIG_IMPORT;
   Lit (";" +:+ nl +:+ nl)] ++
  exports_template tables.

Definition studio_template (tables : JS.Obj DBTable) (appToken : string) :
    list Fragment :=
  [Lit (nl +:+ "import {asDrizzleTable, createRemoteDatabaseClient} from ");
   Val RUNTIME_IMPORT;
   Lit (";" +:+ nl +:+ nl +:+ "export const db = await createRemoteDatabaseClient(");
   Val (JS.JSON_stringify_string appToken);
   Lit ", import.meta.env.ASTRO_STUDIO_REMOTE_DB_URL ?? ";
   Val (JS.JSON_stringify_string (getRemoteDatabaseUrl tt));
   Lit (");" +:+ nl +:+ nl +:+ "export * from "); Val RUNTIME_CONFIG_IMPORT;
   Lit (";" +:+ nl +:+ nl)] ++
  exports_template tables ++
  [Lit (nl +:+ tab)].

(** The client constructor call of the remote module. *)
Definition remoteClientCall (appToken : string) : string :=
  "createRemoteDatabaseClient(" +:+ JS.JSON_stringify_string appToken +:+
  ", " +:+ remoteUrlExpression +:+ ")".

End Templates.

(** A property whose key is not an array index. *)
Definition named {V} (kv : string * V) : bool :=
  negb (JS.is_array_index (fst kv)).

(** The numeric value of an array-index key (0 for any other key). *)
Definition index_value {V} (kv : string * V) : N :=
  match JS.array_index (fst kv) with Some i => i | None => 0%N end.

Definition ascending {V} (l : list (N * (string * V))) : Prop :=
  StronglySorted (fun a b => (fst a <= fst b)%N) l.

(** The offset of the first occurrence of [piece] in [text]. *)
Definition first_offset (piece text : string) : option nat :=
  String.index 0 piece text.

(** Evaluates the occurrence counts of closed strings in the goal. *)
Ltac count_closed :=
  repeat match goal with
         | |- context [occurrences ?p ?s] =>
             let v := eval vm_compute in (occurrences p s) in
             change (occurrences p s) with v
         end.

(** *** Substituted values and the occurrences of a piece

    The generators substitute values into their templates as they are: a
    value that holds a piece of code brings it into the text. The counts
    of the text are therefore stated for values without an opening
    parenthesis, the character that ends every piece counted below. *)

Definition paren : ascii := "("%char.

Fixpoint char_free (c : ascii) (s : string) : bool :=
  match s with
  | EmptyString => true
  | String x r => negb (Ascii.eqb x c) && char_free c r
  end.

(** The value holds no opening parenthesis. *)
Definition no_paren (s : string) : bool := char_free paren s.

Fixpoint last_char (s : string) : option ascii :=
  match s with
  | EmptyString => None
  | String x EmptyString => Some x
  | String _ r => last_char r
  end.

(** The non-empty suffixes of a string, and those that are not the
    string itself. *)
Fixpoint suffixes (s : string) : list string :=
  match s with
  | EmptyString => []
  | String _ r => s :: suffixes r
  end.

Definition proper_suffixes (piece : string) : list string :=
  match piece with
  | EmptyString => []
  | String _ r => suffixes r
  end.

(** No occurrence of [piece] that starts before the literal text [l] can
    end inside it: no proper suffix of [piece] starts [l]. *)
Definition head_safe (piece l : string) : bool :=
  forallb (fun s => negb (String.prefix s l)) (proper_suffixes piece).

(** Appending [x] to any text adds [n] occurrences of [piece]. *)
Definition adds (piece x : string) (n : nat) : Prop :=
  forall a, occurrences piece (a +:+ x) = occurrences piece a + n.

Section PlainValues.

Context {H : Host}.

(** The name and the serialised definition of a table hold no opening
    parenthesis. *)
Definition plain_entry (entry : string * DBTable) : bool :=
  no_paren (fst entry) && no_paren (JSON_stringify_table (snd entry)).

(** No value substituted into the local module holds an opening
    parenthesis: the two import specifiers, the database URL, the user
    seed file paths, the integration seed file paths, the table names
    and the serialised table definitions. *)
Definition plain_local (tables : JS.Obj DBTable) (root : URL)
    (seedFiles : list SeedRef) : bool :=
  no_paren RUNTIME_IMPORT && no_paren RUNTIME_CONFIG_IMPORT &&
  no_paren (href (URL_new DB_PATH root)) &&
  forallb no_paren userSeedFilePaths &&
  forallb no_paren (integrationSeedFilePaths root seedFiles) &&
  forallb plain_entry tables.

(** No value substituted into the remote module holds an opening
    parenthesis: the two import specifiers, the access token, the remote
    URL, the table names and the serialised table definitions. *)
Definition plain_studio (tables : JS.Obj DBTable) (appToken : string) : bool :=
  no_paren RUNTIME_IMPORT && no_paren RUNTIME_CONFIG_IMPORT &&
  no_paren appToken && no_paren (getRemoteDatabaseUrl tt) &&
  forallb plain_entry tables.

End PlainValues.

(** The hints that prove [adds] for text free of the last character of
    the piece. *)
Create HintDb adds.

(** *** The process the generator runs in *)

(** The host of a process in which [getRemoteDatabaseUrl()] returns
    [url], everything else being as in [H]. *)
Definition with_remote_url (H : Host) (url : string) : Host := {|
  DBTable := @DBTable H;
  Session := @Session H;
  VIRTUAL_MODULE_ID := @VIRTUAL_MODULE_ID H;
  DB_PATH := @DB_PATH H;
  RUNTIME_IMPORT := @RUNTIME_IMPORT H;
  RUNTIME_CONFIG_IMPORT := @RUNTIME_CONFIG_IMPORT H;
  SEED_DEV_FILE_NAME := @SEED_DEV_FILE_NAME H;
  getCreateTableQuery := @getCreateTableQuery H;
  getCreateIndexQueries := @getCreateIndexQueries H;
  getDbDirectoryUrl := @getDbDirectoryUrl H;
  getRemoteDatabaseUrl := fun _ => url;
  path_resolve := @path_resolve H;
  fileURLToPath := @fileURLToPath H;
  normalizePath := @normalizePath H;
  URL_new := @URL_new H;
  URL_pathname := @URL_pathname H;
  escapeName := @escapeName H;
  JSON_stringify_table := @JSON_stringify_table H
|}.

Definition hex_value (c : ascii) : N :=
  let n := N_of_ascii c in
  if (n <? 58)%N then (n - 48)%N else (n - 87)%N.

(** A reader of the characters [JSON.stringify] writes for a string: it
    gives back the string that was quoted. *)
Fixpoint unquote_chars (s : string) : option string :=
  match s with
  | EmptyString => Some EmptyString
  | String c r =>
      if Ascii.eqb c JS.backslash then
        match r with
        | String e r' =>
            if Ascii.eqb e "b" then option_map (String "008") (unquote_chars r')
            else if Ascii.eqb e "t" then option_map (String "009") (unquote_chars r')
            else if Ascii.eqb e "n" then option_map (String "010") (unquote_chars r')
            else if Ascii.eqb e "f" then option_map (String "012") (unquote_chars r')
            else if Ascii.eqb e "r" then option_map (String "013") (unquote_chars r')
            else if Ascii.eqb e "u" then
              match r' with
              | String _ (String _ (String h (String l r''))) =>
                  option_map
                    (String (ascii_of_N (16 * hex_value h + hex_value l)))
                    (unquote_chars r'')
              | _ => None
              end
            else option_map (String e) (unquote_chars r')
        | EmptyString => None
        end
      else option_map (String c) (unquote_chars r)
  end.

(** *** Vocabulary of the further properties *)

Section FurtherVocabulary.

Context {H : Host} {E : Engine}.

(** Both DDL generators translate the table. *)
Definition translates (entry : string * DBTable) : bool :=
  match getCreateTableQuery (fst entry) (snd entry),
        getCreateIndexQueries (fst entry) (snd entry) with
  | Returned _, Returned _ => true
  | _, _ => false
  end.

(** The number of statements the loop pushes for one table: its DROP, its
    CREATE and its index statements. *)
Definition pushed_count (entry : string * DBTable) : nat :=
  match getCreateIndexQueries (fst entry) (snd entry) with
  | Returned indexQueries => 2 + length indexQueries
  | Thrown _ => 0
  end.

(** [block] is what one turn of the loop pushes for the table [entry]:
    the DROP of the table, then the CREATE the generator gives for it, then
    its index statements as the generator gives them. *)
Definition pushed_block (entry : string * DBTable) (block : list SQL) : Prop :=
  exists createQuery indexQueries,
    getCreateTableQuery (fst entry) (snd entry) = Returned createQuery /\
    getCreateIndexQueries (fst entry) (snd entry) = Returned indexQueries /\
    block = dropQuery (fst entry) :: sql_raw createQuery ::
            List.map sql_raw indexQueries.

(** [q] is one of the statements generated for the table [entry]. *)
Definition statement_of (entry : string * DBTable) (q : SQL) : Prop :=
  q = dropQuery (fst entry) \/
  getCreateTableQuery (fst entry) (snd entry) = Returned (sql_text q) \/
  exists indexQueries,
    getCreateIndexQueries (fst entry) (snd entry) = Returned indexQueries /\
    In (sql_text q) indexQueries.

(** The batches among a list of calls. *)
Fixpoint batches (cs : list Call) : list (list Pending) :=
  match cs with
  | [] => []
  | Call_batch _ stmts :: rest => stmts :: batches rest
  | Call_recreateTables _ :: rest => batches rest
  end.

(** The id is one of the two virtual ids. *)
Definition is_virtual (id_ : string) : Prop :=
  id_ = virtual resolved \/ id_ = seedVirtual resolved.

End FurtherVocabulary.

(** * Properties *)

(** ** Enumeration order of object properties *)

Section ObjectEntries.

Context {V : Type}.

Implicit Types (o : JS.Obj V) (l : list (N * (string * V))).

Lemma insert_index_perm i e l :
  Permutation (JS.insert_index i e l) ((i, e) :: l).
Proof.
  induction l as [|[j e'] r IH]; simpl; [reflexivity|].
  destruct (i <? j)%N; [reflexivity|].
  rewrite IH. apply perm_swap.
Qed.

Lemma sort_index_perm l : Permutation (JS.sort_index l) l.
Proof.
  induction l as [|[i e] r IH]; simpl; [reflexivity|].
  rewrite insert_index_perm. by constructor.
Qed.

Lemma index_props_spec o :
  List.map snd (JS.index_props o) = List.filter (fun kv => negb (named kv)) o.
Proof.
  induction o as [|[k v] r IH]; simpl; [reflexivity|].
  unfold named, JS.is_array_index; simpl.
  destruct (JS.array_index k); simpl; by rewrite IH.
Qed.

Lemma index_props_value o :
  Forall (fun p => JS.array_index (fst (snd p)) = Some (fst p)) (JS.index_props o).
Proof.
  induction o as [|[k v] r IH]; simpl; [constructor|].
  destruct (JS.array_index k) eqn:Hk; [constructor|]; done.
Qed.

Lemma filter_split_perm (p : string * V -> bool) o :
  Permutation (List.filter (fun kv => negb (p kv)) o ++ List.filter p o) o.
Proof.
  induction o as [|kv r IH]; simpl; [reflexivity|].
  destruct (p kv); simpl.
  - rewrite <- Permutation_middle. by constructor.
  - by constructor.
Qed.

Lemma Object_entries_perm o : Permutation (JS.Object_entries o) o.
Proof.
  unfold JS.Object_entries.
  rewrite (Permutation_map snd (sort_index_perm (JS.index_props o))).
  rewrite index_props_spec. apply (filter_split_perm named).
Qed.

Lemma Object_entries_length o : length (JS.Object_entries o) = length o.
Proof. apply Permutation_length, Object_entries_perm. Qed.

Lemma index_props_named o :
  forallb named o = true -> JS.index_props o = [].
Proof.
  induction o as [|[k v] r IH]; simpl; [reflexivity|].
  unfold named at 1, JS.is_array_index; simpl.
  destruct (JS.array_index k); simpl; [discriminate|]. exact IH.
Qed.

Lemma filter_all (p : string * V -> bool) o :
  forallb p o = true -> List.filter p o = o.
Proof.
  induction o as [|kv r IH]; simpl; [reflexivity|].
  destruct (p kv); simpl; [|discriminate].
  intros Hr. by rewrite IH.
Qed.

Lemma Object_entries_named o :
  forallb named o = true -> JS.Object_entries o = o.
Proof.
  intros Hn. unfold JS.Object_entries.
  rewrite index_props_named by exact Hn. simpl.
  apply (filter_all named), Hn.
Qed.

Lemma insert_index_sorted i e l :
  ascending l -> ascending (JS.insert_index i e l).
Proof.
  induction 1 as [|[j e'] r Hr IH Hall]; simpl.
  - repeat constructor.
  - destruct (i <? j)%N eqn:Hij.
    + apply N.ltb_lt in Hij. constructor; [by constructor|].
      constructor; simpl; [lia|].
      eapply Forall_impl; [exact Hall|]. simpl. intros; lia.
    + apply N.ltb_ge in Hij. constructor; [exact IH|].
      rewrite (insert_index_perm i e r). constructor; [simpl; lia|exact Hall].
  Qed.

Lemma sort_index_sorted l : ascending (JS.sort_index l).
Proof.
  induction l as [|[i e] r IH]; simpl; [constructor|].
  by apply insert_index_sorted.
Qed.

(** [Object.entries] lists the array-index keys first, by ascending numeric
    value, and then the other keys in creation order. *)
Lemma Object_entries_order o :
  exists idx,
    JS.Object_entries o = idx ++ List.filter named o /\
    Permutation idx (List.filter (fun kv => negb (named kv)) o) /\
    StronglySorted (fun a b => (index_value a <= index_value b)%N) idx.
Proof.
  exists (List.map snd (JS.sort_index (JS.index_props o))). split; [reflexivity|]. split.
  - rewrite (Permutation_map snd (sort_index_perm (JS.index_props o))).
    by rewrite index_props_spec.
  - assert (Hv : Forall (fun p => JS.array_index (fst (snd p)) = Some (fst p))
                   (JS.sort_index (JS.index_props o))).
    { rewrite (sort_index_perm (JS.index_props o)). apply index_props_value. }
    pose proof (sort_index_sorted (JS.index_props o)) as Hs.
    induction Hs as [|a r Hr IH Hall]; simpl; [constructor|].
    inversion Hv as [|? ? Ha Hvr]; subst.
    constructor; [by apply IH|].
    rewrite Forall_map. rewrite Forall_forall in Hall, Hvr |- *.
    intros b Hb. unfold index_value.
    rewrite Ha, (Hvr b Hb). by apply Hall.
Qed.

End ObjectEntries.

(** ** Re-creation of the tables *)

Section RecreateTables.

Context {H : Host} {E : Engine}.

Implicit Types (db : SqliteDB) (tables : DBTables) (w : World).

(** The loop appends, to what it was given, the statements of all tables in
    the order of the entries; the first generator that throws ends it. *)
Lemma setup_loop_all_statements entries acc :
  setup_loop entries acc =
  obind (all_statements entries) (fun qs => Returned (acc ++ qs)).
Proof.
  revert acc. induction entries as [|[n t] rest IH]; intros acc; simpl.
  - by rewrite app_nil_r.
  - destruct (getCreateTableQuery n t) as [c|e]; simpl; [|reflexivity].
    destruct (getCreateIndexQueries n t) as [ixs|e]; simpl; [|reflexivity].
    rewrite IH. destruct (all_statements rest) as [qs|e]; simpl; [|reflexivity].
    by rewrite <- app_assoc.
Qed.

Lemma recreateTables_unfold db tables w :
  recreateTables db tables w =
  match all_statements (JS.Object_entries tables) with
  | Thrown e => (Thrown e, logged (Call_recreateTables db) w)
  | Returned qs =>
      let stmts := List.map (db_run db) (defer_foreign_keys :: qs) in
      let '(r, s) := engine_batch (dbUrl db) (List.map pending_sql stmts) (store w) in
      (r, {| session := session w; store := s;
             calls := calls w ++ [Call_recreateTables db; Call_batch db stmts] |})
  end.
Proof.
  unfold recreateTables, db_batch. unfold await, observe, lift. simpl.
  rewrite setup_loop_all_statements.
  destruct (all_statements (JS.Object_entries tables)) as [qs|e]; simpl; [|reflexivity].
  destruct (engine_batch _ _ _) as [r s]. by rewrite <- app_assoc.
Qed.

Lemma recreateTables_session db tables w :
  session (snd (recreateTables db tables w)) = session w.
Proof.
  rewrite recreateTables_unfold.
  destruct (all_statements _); simpl; [|reflexivity].
  by destruct (engine_batch _ _ _).
Qed.

Lemma recreateTables_calls db tables w :
  exists later,
    calls (snd (recreateTables db tables w)) =
    calls w ++ Call_recreateTables db :: later.
Proof.
  rewrite recreateTables_unfold.
  destruct (all_statements _); simpl.
  - destruct (engine_batch _ _ _). simpl. eauto.
  - eauto.
Qed.

(** C2 (as amended). The batch [recreateTables] submits is the statement
    deferring foreign-key checking followed by, for each table in the order
    of [Object.entries], its DROP-IF-EXISTS, its CREATE and its CREATE-INDEX
    statements, and nothing else; when a generator throws, no batch is
    submitted. [Object.entries] lists the tables whose name is an array
    index first, by ascending numeric value, and then the other tables in
    declaration order; it is the declaration order when no table name is an
    array index. *)
Theorem recreateTables_batch db tables w :
  match all_statements (JS.Object_entries tables) with
  | Returned qs =>
      calls_after (recreateTables db tables) w =
      calls w ++ [Call_recreateTables db;
                  Call_batch db (List.map (db_run db) (defer_foreign_keys :: qs))]
  | Thrown e =>
      recreateTables db tables w = (Thrown e, logged (Call_recreateTables db) w)
  end /\
  (exists idx,
     JS.Object_entries tables = idx ++ List.filter named tables /\
     Permutation idx (List.filter (fun kv => negb (named kv)) tables) /\
     StronglySorted (fun a b => (index_value a <= index_value b)%N) idx) /\
  (forallb named tables = true -> JS.Object_entries tables = tables).
Proof.
  split; [|split].
  - unfold calls_after. rewrite recreateTables_unfold.
    destruct (all_statements (JS.Object_entries tables)) as [qs|e]; [|reflexivity].
    simpl. by destruct (engine_batch _ _ _).
  - apply Object_entries_order.
  - apply Object_entries_named.
Qed.

End RecreateTables.

(** ** The resolver *)

Section Resolver.

Context {H : Host} {E : Engine}.

Implicit Types (params : VitePluginDBParams) (this : PluginContext) (w : World).

Lemma resolveId_local params this rawImporter :
  connectToStudio params = false ->
  (importer_in_src params this rawImporter ->
   resolveId params this VIRTUAL_MODULE_ID rawImporter = Some (seedVirtual resolved)) /\
  (~ importer_in_src params this rawImporter ->
   resolveId params this VIRTUAL_MODULE_ID rawImporter = Some (virtual resolved)).
Proof.
  intros Hlocal. unfold resolveId. rewrite String.eqb_refl, Hlocal. simpl. split.
  - intros (raw & r & -> & Hraw & Hr & Hpre).
    destruct raw as [|c raw]; [done|]. simpl. by rewrite Hr, Hpre.
  - intros Hout.
    destruct rawImporter as [[|c raw]|]; simpl; try reflexivity.
    destruct (this_resolve this (String c raw)) as [r|] eqn:Hr; [|reflexivity].
    destruct (JS.startsWith (id r) (srcDirPath params)) eqn:Hpre; [|reflexivity].
    exfalso. apply Hout. exists (String c raw), r. by repeat split.
Qed.

Lemma importer_in_src_dec params this rawImporter :
  importer_in_src params this rawImporter \/
  ~ importer_in_src params this rawImporter.
Proof.
  destruct rawImporter as [[|c raw]|].
  - right. intros (raw & r & Hraw & Hne & _). by injection Hraw as <-.
  - destruct (this_resolve this (String c raw)) as [r|] eqn:Hr.
    + destruct (JS.startsWith (id r) (srcDirPath params)) eqn:Hpre.
      * left. exists (String c raw), r. by repeat split.
      * right. intros (raw' & r' & Hraw & _ & Hr' & Hpre').
        injection Hraw as <-. congruence.
    + right. intros (raw' & r' & Hraw & _ & Hr' & _).
      injection Hraw as <-. congruence.
  - right. by intros (raw & r & Hraw & _).
Qed.

Lemma NUL_prefix_inj (a b : string) : NUL +:+ a = NUL +:+ b -> a = b.
Proof. unfold NUL. cbv [String.append]. by intros [= ->]. Qed.

(** C1. [resolveId] declines every id but the reserved specifier. For the
    reserved specifier it returns the plain virtual id in remote-managed
    mode whatever the importer; in local mode it returns the seed-bearing
    virtual id when the resolved importer path starts with the path of the
    source directory and the plain virtual id for every other importer, in
    particular when the importer is absent or cannot be resolved. The
    seed-bearing id is returned in no other case (the two virtual ids being
    different). *)
Theorem resolveId_cases params this id_ rawImporter :
  (id_ <> VIRTUAL_MODULE_ID -> resolveId params this id_ rawImporter = None) /\
  (id_ = VIRTUAL_MODULE_ID -> connectToStudio params = true ->
   resolveId params this id_ rawImporter = Some (virtual resolved)) /\
  (id_ = VIRTUAL_MODULE_ID -> connectToStudio params = false ->
   (importer_in_src params this rawImporter ->
    resolveId params this id_ rawImporter = Some (seedVirtual resolved)) /\
   (~ importer_in_src params this rawImporter ->
    resolveId params this id_ rawImporter = Some (virtual resolved)) /\
   (rawImporter = None \/
    (exists raw, rawImporter = Some raw /\ this_resolve this raw = None) ->
    resolveId params this id_ rawImporter = Some (virtual resolved)) /\
   (VIRTUAL_MODULE_ID <> WITH_SEED_VIRTUAL_MODULE_ID ->
    resolveId params this id_ rawImporter = Some (seedVirtual resolved) ->
    importer_in_src params this rawImporter)).
Proof.
  split; [|split].
  - intros Hne. unfold resolveId.
    apply String.eqb_neq in Hne. by rewrite Hne.
  - intros -> Hstudio. unfold resolveId. by rewrite String.eqb_refl, Hstudio.
  - intros -> Hlocal.
    destruct (resolveId_local params this rawImporter Hlocal) as [Hin Hout].
    split; [exact Hin|]. split; [exact Hout|]. split.
    + intros Hno. apply Hout. intros (raw & r & Hraw & _ & Hr & _).
      destruct Hno as [->|(raw' & -> & Hnone)]; [discriminate|].
      injection Hraw as ->. congruence.
    + intros Hdiff Hseed.
      destruct (importer_in_src_dec params this rawImporter) as [Hyes|Hno]; [exact Hyes|].
      rewrite (Hout Hno) in Hseed.
      assert (Heq : virtual resolved = seedVirtual resolved) by congruence.
      apply (NUL_prefix_inj VIRTUAL_MODULE_ID WITH_SEED_VIRTUAL_MODULE_ID) in Heq.
      by exfalso.
Qed.

End Resolver.

(** ** Loading *)

Section Load.

Context {H : Host} {E : Engine}.

Implicit Types (params : VitePluginDBParams) (w : World).

Lemma some_eqb_In (x : string) (l : list string) :
  JS.some (fun f => String.eqb x f) l = true <-> In x l.
Proof.
  unfold JS.some. rewrite existsb_exists. split.
  - intros (f & Hf & Heq). apply String.eqb_eq in Heq. by subst.
  - intros Hx. exists x. split; [exact Hx|apply String.eqb_refl].
Qed.

Lemma load_tail params id_ :
  (fun _ : unit =>
     if negb (String.eqb id_ (virtual resolved)) &&
        negb (String.eqb id_ (seedVirtual resolved))
     then ret None
     else
       match params with
       | StudioParams tables appToken _ _ =>
           await get_session (fun s =>
           ret (Some (getStudioVirtualModContents (tables_get tables s) appToken)))
       | LocalParams tables seedFiles _ root =>
           await get_session (fun s =>
           ret (Some (getLocalVirtualModContents
                        (tables_get tables s) root (seedFiles_get seedFiles s)
                        (String.eqb id_ (seedVirtual resolved)))))
       end) =
  (fun _ : unit => fun w => (Returned (load_result params id_ (session w)), w)).
Proof.
  unfold load_result.
  destruct (negb (String.eqb id_ (virtual resolved)) &&
            negb (String.eqb id_ (seedVirtual resolved))); [reflexivity|].
  by destruct params.
Qed.

Lemma load_result_other params id_ s :
  id_ <> virtual resolved -> id_ <> seedVirtual resolved ->
  load_result params id_ s = None.
Proof.
  intros Hv Hs. apply String.eqb_neq in Hv, Hs.
  unfold load_result. by rewrite Hv, Hs.
Qed.

Lemma load_result_studio tables appToken srcDir root id_ s :
  id_ = virtual resolved \/ id_ = seedVirtual resolved ->
  load_result (StudioParams tables appToken srcDir root) id_ s =
  Some (getStudioVirtualModContents (tables_get tables s) appToken).
Proof.
  unfold load_result.
  intros [->| ->]; rewrite String.eqb_refl; [reflexivity|].
  by rewrite andb_false_r.
Qed.

(** [load] on a seed file path: [recreateTables] runs first, and what
    follows sees the world it leaves. *)
Lemma load_seed_file params id_ w :
  In id_ (seedFilePaths params) ->
  load params id_ w =
  match recreateTables (local_client params)
          (tables_get (params_tables params) (session w)) w with
  | (Returned _, w') => (Returned (load_result params id_ (session w')), w')
  | (Thrown e, w') => (Thrown e, w')
  end.
Proof.
  intros Hin. apply some_eqb_In in Hin.
  unfold load. rewrite Hin, load_tail. reflexivity.
Qed.

(** [load] on any other id touches nothing. *)
Lemma load_other params id_ w :
  ~ In id_ (seedFilePaths params) ->
  load params id_ w = (Returned (load_result params id_ (session w)), w).
Proof.
  intros Hout. rewrite <- some_eqb_In in Hout. apply not_true_is_false in Hout.
  unfold load. rewrite Hout, load_tail. reflexivity.
Qed.

Lemma load_seed_file_invokes params id_ w :
  In id_ (seedFilePaths params) ->
  invokes_recreateTables params id_ w (local_client params).
Proof.
  intros Hin. unfold invokes_recreateTables, calls_after.
  rewrite (load_seed_file _ _ _ Hin).
  destruct (recreateTables_calls (local_client params)
              (tables_get (params_tables params) (session w)) w) as [later Hl].
  exists later. rewrite <- Hl.
  by destruct (recreateTables _ _ _) as [[u|e] w'].
Qed.

(** C3. A [load] whose id is one of the seed file paths invokes
    [recreateTables] and awaits it before it decides what to return: the
    world [load] leaves is the one the resynchronisation leaves; an error
    raised by the resynchronisation is the outcome of [load], with no
    module text; when the resynchronisation succeeds [load] returns, and
    for an id that is neither of the two virtual ids it declines. *)
Theorem load_seed_file_resynchronizes params id_ w :
  In id_ (seedFilePaths params) ->
  let run :=
    recreateTables (local_client params)
      (tables_get (params_tables params) (session w)) w in
  invokes_recreateTables params id_ w (local_client params) /\
  snd (load params id_ w) = snd run /\
  match fst run with
  | Thrown e => fst (load params id_ w) = Thrown e
  | Returned _ =>
      fst (load params id_ w) =
        Returned (load_result params id_ (session (snd run))) /\
      (id_ <> virtual resolved -> id_ <> seedVirtual resolved ->
       fst (load params id_ w) = Returned None)
  end.
Proof.
  intros Hin run. split; [by apply load_seed_file_invokes|].
  rewrite (load_seed_file _ _ _ Hin). fold run.
  destruct run as [[u|e] w']; simpl; [|done].
  split; [reflexivity|]. split; [reflexivity|].
  intros Hv Hs. f_equal. by apply load_result_other.
Qed.

(** C10. In remote-managed mode too, a [load] whose id is one of the seed
    file paths invokes [recreateTables] on a local client for the database
    file under the project root, and only then returns: the studio module
    text when the id is one of the virtual ids, nothing otherwise. *)
Theorem load_seed_file_studio tables appToken srcDir root id_ w :
  let params := StudioParams tables appToken srcDir root in
  let db := createLocalDatabaseClient (href (URL_new DB_PATH root)) in
  let run := recreateTables db (tables_get tables (session w)) w in
  In id_ (seedFilePaths params) ->
  invokes_recreateTables params id_ w db /\
  snd (load params id_ w) = snd run /\
  (forall u, fst run = Returned u ->
     (id_ = virtual resolved \/ id_ = seedVirtual resolved ->
      fst (load params id_ w) =
        Returned (Some (getStudioVirtualModContents
                          (tables_get tables (session w)) appToken))) /\
     (id_ <> virtual resolved -> id_ <> seedVirtual resolved ->
      fst (load params id_ w) = Returned None)).
Proof.
  intros params db run Hin.
  split; [exact (load_seed_file_invokes params id_ w Hin)|].
  rewrite (load_seed_file _ _ _ Hin).
  change (recreateTables (local_client params)
            (tables_get (params_tables params) (session w)) w) with run.
  pose proof (recreateTables_session db (tables_get tables (session w)) w) as Hs.
  fold run in Hs.
  destruct run as [[u|e] w']; simpl in *; (split; [reflexivity|]); [|done].
  intros _ _. rewrite Hs. split.
  - intros Hid. f_equal. by apply load_result_studio.
  - intros Hv Hsd. f_equal. by apply load_result_other.
Qed.

(** C7 (as amended). [load] invokes [recreateTables] exactly when the id is
    one of the seed file paths. Loading the seed-bearing virtual id, which
    is not such a path, invokes nothing and changes nothing: in local mode
    it returns the module text rendered with the seed invocation. *)
Theorem load_invokes_iff_seed_file params id_ w :
  ((exists db, invokes_recreateTables params id_ w db) <->
   In id_ (seedFilePaths params)) /\
  (~ In (seedVirtual resolved) (seedFilePaths params) ->
   calls_after (load params (seedVirtual resolved)) w = calls w /\
   forall tables seedFiles srcDir root,
     params = LocalParams tables seedFiles srcDir root ->
     load params (seedVirtual resolved) w =
     (Returned (Some (getLocalVirtualModContents
                        (tables_get tables (session w)) root
                        (seedFiles_get seedFiles (session w)) true)), w)).
Proof.
  split.
  - split.
    + intros [db [later Hl]].
      destruct (in_dec string_dec id_ (seedFilePaths params)) as [Hin|Hout]; [done|].
      exfalso. unfold calls_after in Hl. rewrite (load_other _ _ _ Hout) in Hl.
      simpl in Hl. apply (f_equal length) in Hl.
      rewrite length_app in Hl. simpl in Hl. lia.
    + intros Hin. exists (local_client params). by apply load_seed_file_invokes.
  - intros Hout. unfold calls_after. rewrite (load_other _ _ _ Hout).
    split; [reflexivity|].
    intros tables seedFiles srcDir root ->. unfold load_result.
    rewrite String.eqb_refl, andb_false_r. reflexivity.
Qed.

End Load.

(** ** Strings and templates *)

Section Strings.

Implicit Types (a b c p s t : string).

Lemma string_app_assoc a b c : (a +:+ b) +:+ c = a +:+ b +:+ c.
Proof. induction a as [|x a IH]; [reflexivity|]. cbv [String.append]. fold String.append. by rewrite IH. Qed.

Lemma string_app_nil_r a : a +:+ EmptyString = a.
Proof. induction a as [|x a IH]; [reflexivity|]. cbv [String.append]. fold String.append. by rewrite IH. Qed.

Lemma string_app_cons x a b : String x a +:+ b = String x (a +:+ b).
Proof. reflexivity. Qed.

Lemma string_length_app a b :
  String.length (a +:+ b) = String.length a + String.length b.
Proof.
  induction a as [|x a IH]; [reflexivity|].
  rewrite string_app_cons. simpl. by rewrite IH.
Qed.

Lemma substring_head p b :
  String.substring 0 (String.length p) (p +:+ b) = p.
Proof.
  induction p as [|x p IH].
  - by destruct b.
  - rewrite string_app_cons. simpl. by rewrite IH.
Qed.

Lemma substring_skip a n m s :
  String.substring (String.length a + n) m (a +:+ s) = String.substring n m s.
Proof. induction a as [|x a IH]; [reflexivity|]. exact IH. Qed.

End Strings.

Section Occurrences.

Context {H : Host} {E : Engine}.

Implicit Types (a b p t : string).

Lemma occurs_at_intro a p b :
  occurs_at p (a +:+ p +:+ b) (String.length a).
Proof.
  unfold occurs_at.
  rewrite <- (Nat.add_0_r (String.length a)), substring_skip.
  apply substring_head.
Qed.

Lemma join_occurs sep (x : string) (l : list string) :
  In x l -> exists a b, JS.join sep l = a +:+ x +:+ b.
Proof.
  unfold JS.join. induction l as [|y l IH]; [done|].
  intros [->|Hx].
  - exists EmptyString. destruct l as [|z l]; simpl.
    + exists EmptyString. by rewrite string_app_nil_r.
    + eexists. reflexivity.
  - destruct l as [|z l]; [done|].
    destruct (IH Hx) as (a & b & Hab).
    exists (y +:+ sep +:+ a), b.
    change (String.concat sep (y :: z :: l))
      with (y +:+ sep +:+ String.concat sep (z :: l)).
    by rewrite Hab, !string_app_assoc.
Qed.

End Occurrences.

Section TemplateFacts.

Implicit Types (fs gs : list Fragment).

Lemma render_app fs gs : render (fs ++ gs) = render fs +:+ render gs.
Proof.
  induction fs as [|f fs IH]; [reflexivity|].
  simpl. by rewrite IH, string_app_assoc.
Qed.

Lemma written_app p fs gs : written p (fs ++ gs) = written p fs + written p gs.
Proof.
  induction fs as [|[s|s] fs IH]; simpl; [reflexivity| |exact IH].
  rewrite IH. lia.
Qed.

Lemma render_separated (sep : string) (parts : list (list Fragment)) :
  render (separated (Lit sep) parts) = JS.join sep (List.map render parts).
Proof.
  unfold JS.join. induction parts as [|p parts IH]; [reflexivity|].
  destruct parts as [|q parts]; [reflexivity|].
  change (separated (Lit sep) (p :: q :: parts))
    with (p ++ Lit sep :: separated (Lit sep) (q :: parts)).
  rewrite render_app.
  change (render (Lit sep :: separated (Lit sep) (q :: parts)))
    with (sep +:+ render (separated (Lit sep) (q :: parts))).
  rewrite IH. reflexivity.
Qed.

(** When every part writes [piece] [k] times and the separator does not
    write it, the joined template writes it [k] times per part. *)
Lemma written_separated p (sep : string) k (parts : list (list Fragment)) :
  occurrences p sep = 0 ->
  Forall (fun part => written p part = k) parts ->
  written p (separated (Lit sep) parts) = k * length parts.
Proof.
  intros Hsep Hall. induction Hall as [|part parts Hp Hall IH]; [simpl; lia|].
  destruct parts as [|q parts]; [simpl; lia|].
  change (separated (Lit sep) (part :: q :: parts))
    with (part ++ Lit sep :: separated (Lit sep) (q :: parts)).
  rewrite written_app.
  change (written p (Lit sep :: separated (Lit sep) (q :: parts)))
    with (occurrences p sep + written p (separated (Lit sep) (q :: parts))).
  rewrite Hsep, IH, Hp. simpl length. lia.
Qed.

End TemplateFacts.

(** ** The module content generators *)

Section Generators.

Context {H : Host} {E : Engine}.

Implicit Types (tables : DBTables) (root : URL) (seedFiles : list SeedRef).

Lemma render_collection_export entry :
  render (collection_export_template entry) = collection_export entry.
Proof.
  destruct entry as [n c]. unfold collection_export_template, collection_export.
  cbn [render fragment_text]. by rewrite ?string_app_assoc, ?string_app_nil_r.
Qed.

Lemma render_exports tables :
  render (exports_template tables) = getStringifiedCollectionExports tables.
Proof.
  unfold exports_template, getStringifiedCollectionExports.
  rewrite render_separated, List.map_map. f_equal.
  apply List.map_ext, render_collection_export.
Qed.

Lemma render_seedImport filePath :
  render (seedImport_template filePath) = seedImport filePath.
Proof.
  unfold seedImport_template, seedImport.
  cbn [render fragment_text]. by rewrite ?string_app_assoc, ?string_app_nil_r.
Qed.

Lemma render_seedLocalCall root seedFiles :
  render (seedLocalCall_template root seedFiles) = seedLocalCall root seedFiles.
Proof.
  unfold seedLocalCall_template, seedLocalCall, integrationSeedImports.
  rewrite !render_app, render_separated, List.map_map.
  rewrite (List.map_ext _ _ render_seedImport).
  cbn [render fragment_text]. by rewrite ?string_app_assoc, ?string_app_nil_r.
Qed.

(** The templates denote the texts the generators return. *)
Lemma render_local_template tables root seedFiles shouldSeed :
  render (local_template tables root seedFiles shouldSeed) =
  getLocalVirtualModContents tables root seedFiles shouldSeed.
Proof.
  unfold local_template, getLocalVirtualModContents.
  rewrite !render_app, render_exports.
  destruct shouldSeed.
  - rewrite render_seedLocalCall. unfold seedLocalImport_template, seedLocalImport.
    cbn [render fragment_text]. by rewrite ?string_app_assoc, ?string_app_nil_r.
  - cbn [render fragment_text]. by rewrite ?string_app_assoc, ?string_app_nil_r.
Qed.

Lemma render_studio_template tables appToken :
  render (studio_template tables appToken) =
  getStudioVirtualModContents tables appToken.
Proof.
  unfold studio_template, getStudioVirtualModContents, remoteUrlExpression.
  rewrite !render_app, render_exports.
  cbn [render fragment_text]. by rewrite ?string_app_assoc, ?string_app_nil_r.
Qed.

Lemma Forall_map_written {A} p k (f : A -> list Fragment) (l : list A) :
  (forall x, written p (f x) = k) ->
  Forall (fun part => written p part = k) (List.map f l).
Proof. intros Hf. rewrite Forall_map. apply Forall_forall. auto. Qed.

Lemma written_exports p tables :
  occurrences p nl = 0 ->
  written p (exports_template tables) =
  (occurrences p "export const " + occurrences p " = asDrizzleTable(" +
   occurrences p ", " + occurrences p ", false)") * length tables.
Proof.
  intros Hnl. unfold exports_template.
  assert (Hk : forall e,
             written p (collection_export_template e) =
             occurrences p "export const " + occurrences p " = asDrizzleTable(" +
             occurrences p ", " + occurrences p ", false)").
  { intros [n c]. simpl. lia. }
  rewrite (written_separated p nl _ _ Hnl
             (Forall_map_written p _ collection_export_template _ Hk)).
  by rewrite length_map, Object_entries_length.
Qed.

Lemma written_seedImports p root seedFiles :
  occurrences p "," = 0 ->
  written p (separated (Lit ",")
               (List.map seedImport_template
                  (integrationSeedFilePaths root seedFiles))) =
  (occurrences p "() => import(" + occurrences p ")") * length seedFiles.
Proof.
  intros Hsep.
  assert (Hk : forall filePath,
             written p (seedImport_template filePath) =
             occurrences p "() => import(" + occurrences p ")").
  { intros filePath. simpl. lia. }
  rewrite (written_separated p "," _ _ Hsep
             (Forall_map_written p _ seedImport_template _ Hk)).
  unfold integrationSeedFilePaths. by rewrite !length_map.
Qed.

End Generators.

(** ** Occurrences of a piece in a text built by concatenation *)

Section Guard.

Implicit Types (a b m s v l : string) (c : ascii).

Lemma prefix_nil_r m : String.prefix m EmptyString = true -> m = EmptyString.
Proof. by destruct m. Qed.

Lemma prefix_nil_l s : String.prefix EmptyString s = true.
Proof. by destruct s. Qed.

Lemma prefix_app_l m a b : String.prefix m a = true -> String.prefix m (a +:+ b) = true.
Proof.
  revert a. induction m as [|x m IH]; intros a; [intros _; apply prefix_nil_l|].
  destruct a as [|y a]; [discriminate|].
  cbn [String.prefix]. rewrite string_app_cons. cbn [String.prefix].
  destruct (ascii_dec x y); [apply IH|discriminate].
Qed.

Lemma prefix_app_cases m a b :
  String.prefix m (a +:+ b) = true ->
  String.prefix m a = true \/
  exists s, s <> EmptyString /\ m = a +:+ s /\ String.prefix s b = true.
Proof.
  revert a. induction m as [|x m IH]; intros a Hp.
  - left. apply prefix_nil_l.
  - destruct a as [|y a].
    + right. exists (String x m). split; [discriminate|]. by split.
    + rewrite string_app_cons in Hp. cbn [String.prefix] in *.
      destruct (ascii_dec x y) as [->|]; [|discriminate].
      destruct (IH a Hp) as [Hl|(s & Hs & -> & Hb)]; [by left|].
      right. exists s. split; [exact Hs|]. split; [|exact Hb].
      by rewrite string_app_cons.
Qed.

Lemma occurrences_nil m : m <> EmptyString -> occurrences m EmptyString = 0.
Proof. by destruct m. Qed.

Lemma char_free_prefix c s v :
  String.prefix s v = true -> char_free c v = true -> char_free c s = true.
Proof.
  revert v. induction s as [|x s IH]; intros v; [reflexivity|].
  destruct v as [|y v]; [discriminate|]. cbn [String.prefix char_free].
  destruct (ascii_dec x y) as [->|]; [|discriminate].
  intros Hp [Hy Hv]%andb_prop. rewrite Hy. simpl. by apply (IH v).
Qed.

Lemma last_char_app a s :
  s <> EmptyString -> last_char (a +:+ s) = last_char s.
Proof.
  intros Hs. induction a as [|x a IH]; [reflexivity|].
  rewrite string_app_cons. cbn [last_char]. rewrite IH.
  destruct (a +:+ s) eqn:Has; [|reflexivity].
  destruct a; [|discriminate]. by destruct s.
Qed.

Lemma char_free_last c s : char_free c s = true -> last_char s <> Some c.
Proof.
  induction s as [|x s IH]; [discriminate|].
  cbn [char_free last_char]. intros [Hx Hs]%andb_prop.
  destruct s as [|y s].
  - intros [= ->]. by rewrite Ascii.eqb_refl in Hx.
  - by apply IH.
Qed.

(** A piece that ends with [c] does not reach into a text free of [c]. *)
Lemma prefix_app_free m c a v :
  last_char m = Some c -> char_free c v = true ->
  String.prefix m (a +:+ v) = String.prefix m a.
Proof.
  intros Hm Hv. destruct (String.prefix m (a +:+ v)) eqn:Hp.
  - destruct (prefix_app_cases _ _ _ Hp) as [Ha|(s & Hs & -> & Hb)]; [by rewrite Ha|].
    rewrite (last_char_app _ _ Hs) in Hm.
    by destruct (char_free_last c s (char_free_prefix _ _ _ Hb Hv)).
  - destruct (String.prefix m a) eqn:Ha; [|reflexivity].
    by rewrite (prefix_app_l _ _ v Ha) in Hp.
Qed.

Lemma prefix_free m c w :
  last_char m = Some c -> char_free c w = true -> String.prefix m w = false.
Proof.
  intros Hm Hw. destruct (String.prefix m w) eqn:Hp; [|reflexivity].
  by destruct (char_free_last c m (char_free_prefix _ _ _ Hp Hw)).
Qed.

Lemma occurrences_free m c v :
  last_char m = Some c -> char_free c v = true -> occurrences m v = 0.
Proof.
  intros Hm. induction v as [|y v IH]; intros Hv.
  - apply occurrences_nil. by destruct m.
  - cbn [occurrences]. rewrite (prefix_free m c _ Hm Hv).
    cbn [char_free] in Hv. apply andb_prop in Hv as [_ Hv]. by rewrite (IH Hv).
Qed.

(** Text free of the last character of [piece] adds no occurrence,
    whatever precedes it. *)
Lemma adds_free m c v :
  last_char m = Some c -> char_free c v = true -> adds m v 0.
Proof.
  intros Hm Hv a. induction a as [|y a IH].
  - change (EmptyString +:+ v) with v. rewrite (occurrences_free m c v Hm Hv).
    rewrite occurrences_nil; [reflexivity|by destruct m].
  - rewrite string_app_cons. cbn [occurrences]. rewrite IH.
    rewrite <- string_app_cons, (prefix_app_free m c _ v Hm Hv). lia.
Qed.

Lemma suffixes_app a s : s <> EmptyString -> In s (suffixes (a +:+ s)).
Proof.
  intros Hs. induction a as [|x a IH].
  - change (EmptyString +:+ s) with s. destruct s; [done|]. by left.
  - rewrite string_app_cons. by right.
Qed.

(** Literal text none of whose prefixes ends [piece] adds the occurrences
    it holds itself, whatever precedes it. *)
Lemma adds_lit m l :
  m <> EmptyString -> head_safe m l = true -> adds m l (occurrences m l).
Proof.
  intros Hm Hl a. induction a as [|y a IH].
  - change (EmptyString +:+ l) with l. by rewrite occurrences_nil.
  - rewrite string_app_cons. cbn [occurrences]. rewrite IH.
    rewrite <- string_app_cons.
    assert (Hp : String.prefix m (String y a +:+ l) = String.prefix m (String y a)).
    { destruct (String.prefix m (String y a +:+ l)) eqn:Hp.
      - destruct (prefix_app_cases _ _ _ Hp) as [Ha|(s & Hs & -> & Hb)]; [by rewrite Ha|].
        unfold head_safe in Hl. rewrite forallb_forall in Hl.
        specialize (Hl s). rewrite Hb in Hl. 
        rewrite string_app_cons in Hl. cbn [proper_suffixes] in Hl.
        by specialize (Hl (suffixes_app a s Hs)).
      - destruct (String.prefix m (String y a)) eqn:Ha; [|reflexivity].
        by rewrite (prefix_app_l _ _ l Ha) in Hp. }
    rewrite Hp. lia.
Qed.

Lemma adds_nil m : adds m EmptyString 0.
Proof. intros a. by rewrite string_app_nil_r. Qed.

Lemma adds_app m x y n1 n2 :
  adds m x n1 -> adds m y n2 -> adds m (x +:+ y) (n1 + n2).
Proof.
  intros Hx Hy a. rewrite <- string_app_assoc, Hy, Hx. lia.
Qed.

Lemma adds_occurrences m x n :
  m <> EmptyString -> adds m x n -> occurrences m x = n.
Proof.
  intros Hm Hx. specialize (Hx EmptyString).
  by rewrite occurrences_nil in Hx.
Qed.

Lemma char_free_app c a b :
  char_free c (a +:+ b) = char_free c a && char_free c b.
Proof.
  induction a as [|x a IH]; [reflexivity|].
  rewrite string_app_cons. cbn [char_free]. rewrite IH. by rewrite andb_assoc.
Qed.

Lemma no_paren_quote_char x :
  Ascii.eqb x paren = false -> no_paren (JS.quote_char x) = true.
Proof.
  destruct x as [[] [] [] [] [] [] [] []]; vm_compute; intros Hx;
    first [reflexivity|discriminate Hx].
Qed.

Lemma no_paren_quote_chars s :
  no_paren s = true -> no_paren (JS.quote_chars s) = true.
Proof.
  unfold no_paren. induction s as [|x s IH]; [reflexivity|].
  cbn [char_free JS.quote_chars]. intros [Hx Hs]%andb_prop.
  rewrite char_free_app, (IH Hs), andb_true_r.
  apply no_paren_quote_char. by destruct (Ascii.eqb x paren).
Qed.

Lemma no_paren_JSON s :
  no_paren s = true -> no_paren (JS.JSON_stringify_string s) = true.
Proof.
  intros Hs. unfold no_paren, JS.JSON_stringify_string.
  rewrite !char_free_app. fold (no_paren (JS.quote_chars s)).
  by rewrite (no_paren_quote_chars s Hs).
Qed.

Lemma no_paren_join sep xs :
  no_paren sep = true -> forallb no_paren xs = true ->
  no_paren (JS.join sep xs) = true.
Proof.
  intros Hsep. unfold JS.join. induction xs as [|x xs IH]; [reflexivity|].
  cbn [forallb]. intros [Hx Hxs]%andb_prop.
  destruct xs as [|y xs]; [exact Hx|].
  change (String.concat sep (x :: y :: xs))
    with (x +:+ sep +:+ String.concat sep (y :: xs)).
  unfold no_paren in *. rewrite !char_free_app, Hx, Hsep. simpl. by apply IH.
Qed.

Lemma no_paren_JSON_strings xs :
  forallb no_paren xs = true -> no_paren (JS.JSON_stringify_strings xs) = true.
Proof.
  intros Hxs. unfold JS.JSON_stringify_strings, no_paren.
  rewrite !char_free_app. simpl.
  rewrite andb_true_r. apply no_paren_join; [reflexivity|].
  rewrite forallb_forall in *. intros y (x & <- & Hx)%in_map_iff.
  apply no_paren_JSON, Hxs, Hx.
Qed.

End Guard.

(** Text made of pieces free of the last character of the piece counted
    adds no occurrence. *)
#[global] Hint Resolve adds_nil adds_app : adds.
#[global] Hint Extern 1 (adds _ _ _) =>
  (eapply adds_free; [eassumption|first [assumption|reflexivity]]) : adds.

(** The occurrences, in the texts of the generators, of a piece [m] that
    ends with an opening parenthesis, when no substituted value holds
    one: they are the occurrences in the literal text that holds a
    parenthesis itself. *)
Section Counting.

Context {H : Host} (m : string) (Hm : last_char m = Some paren).

Lemma marker_nonempty : m <> EmptyString.
Proof using Hm. by destruct m. Qed.

Lemma adds_join sep xs :
  no_paren sep = true ->
  Forall (fun x => adds m x 0) xs ->
  adds m (JS.join sep xs) 0.
Proof using Hm.
  intros Hsep. unfold JS.join. induction 1 as [|x xs Hx Hxs IH]; [apply adds_nil|].
  destruct xs as [|y xs]; [exact Hx|].
  change (String.concat sep (x :: y :: xs))
    with (x +:+ sep +:+ String.concat sep (y :: xs)).
  apply (adds_app m _ _ 0 0 Hx).
  apply (adds_app m _ _ 0 0); [solve [eauto 8 with adds nocore]|exact IH].
Qed.

Lemma adds_eq x n n' : adds m x n -> n = n' -> adds m x n'.
Proof using Type. by intros Hx <-. Qed.

Lemma adds_thunks k paths :
  head_safe m ("," +:+ "() => import(") = true ->
  occurrences m ("," +:+ "() => import(") = k ->
  forallb no_paren paths = true ->
  forall x,
    no_paren x = true ->
    head_safe m (x +:+ "() => import(") = true ->
    occurrences m (x +:+ "() => import(") = k ->
    adds m (x +:+ JS.join "," (List.map seedImport paths)) (k * length paths).
Proof using Hm.
  intros Hsep_safe Hsep_k. unfold JS.join.
  induction paths as [|p ps IH]; intros Hps x Hx Hsafe Hk.
  - apply (adds_eq _ (0 + 0)); [|cbn [length]; lia].
    apply adds_app; [solve [eauto 8 with adds nocore]|apply adds_nil].
  - cbn [forallb] in Hps. apply andb_prop in Hps as [Hp Hps].
    pose proof (no_paren_JSON p Hp) as Hj.
    assert (Hone : adds m ((x +:+ "() => import(") +:+
                            JS.JSON_stringify_string p +:+ ")") (k + (0 + 0))).
    { apply adds_app.
      - rewrite <- Hk. apply adds_lit; [apply marker_nonempty|exact Hsafe].
      - apply adds_app; solve [eauto 8 with adds nocore]. }
    destruct ps as [|p' ps].
    + apply (adds_eq _ (k + (0 + 0))); [|cbn [length]; lia].
      cbn [List.map String.concat]. unfold seedImport.
      by rewrite string_app_assoc in Hone.
    + apply (adds_eq _ ((k + (0 + 0)) + k * length (p' :: ps))); [|cbn [length]; lia].
      change (String.concat "," (List.map seedImport (p :: p' :: ps)))
        with (seedImport p +:+ "," +:+
              String.concat "," (List.map seedImport (p' :: ps))).
      unfold seedImport at 1.
      replace (x +:+ ("() => import(" +:+ JS.JSON_stringify_string p +:+ ")") +:+
               "," +:+ String.concat "," (List.map seedImport (p' :: ps)))
        with (((x +:+ "() => import(") +:+ JS.JSON_stringify_string p +:+ ")") +:+
              "," +:+ String.concat "," (List.map seedImport (p' :: ps)))
        by (by rewrite ?string_app_assoc).
      apply adds_app; [exact Hone|].
      by apply IH.
Qed.

Lemma adds_app3 x y z n1 n2 :
  adds m (x +:+ y) n1 -> adds m z n2 -> adds m (x +:+ y +:+ z) (n1 + n2).
Proof using Type.
  intros Hxy Hz. rewrite <- (string_app_assoc x y z). by apply adds_app.
Qed.

Context (Hexport_safe : head_safe m " = asDrizzleTable(" = true)
  (Hexport_none : occurrences m " = asDrizzleTable(" = 0).

Lemma adds_collection_export entry :
  plain_entry entry = true -> adds m (collection_export entry) 0.
Proof using Hm Hexport_safe Hexport_none.
  destruct entry as [n t]. unfold plain_entry. cbn [fst snd].
  intros [Hn Ht]%andb_prop. pose proof (no_paren_JSON n Hn) as Hj.
  unfold collection_export.
  apply (adds_app m _ _ 0 0); [solve [eauto 8 with adds nocore]|].
  apply (adds_app m _ _ 0 0); [solve [eauto 8 with adds nocore]|].
  apply (adds_app m _ _ 0 0).
  { rewrite <- Hexport_none. apply adds_lit; [apply marker_nonempty|exact Hexport_safe]. }
  apply (adds_app m _ _ 0 0); [solve [eauto 8 with adds nocore]|].
  apply (adds_app m _ _ 0 0); [solve [eauto 8 with adds nocore]|].
  apply (adds_app m _ _ 0 0); [solve [eauto 8 with adds nocore]|].
  solve [eauto 8 with adds nocore].
Qed.

Lemma adds_exports (tables : DBTables) :
  forallb plain_entry tables = true ->
  adds m (getStringifiedCollectionExports tables) 0.
Proof using Hm Hexport_safe Hexport_none.
  intros Ht. unfold getStringifiedCollectionExports.
  apply adds_join; [reflexivity|].
  apply List.Forall_forall. intros x (entry & <- & Hin)%in_map_iff.
  apply adds_collection_export.
  rewrite forallb_forall in Ht. apply Ht.
  by apply (Permutation_in _ (Object_entries_perm tables)).
Qed.

Lemma plain_local_values (tables : DBTables) root seedFiles :
  plain_local tables root seedFiles = true ->
  no_paren RUNTIME_IMPORT = true /\ no_paren RUNTIME_CONFIG_IMPORT = true /\
  no_paren (JSON_stringify_URL (URL_new DB_PATH root)) = true /\
  no_paren (JS.JSON_stringify_strings userSeedFilePaths) = true /\
  forallb no_paren (integrationSeedFilePaths root seedFiles) = true /\
  forallb plain_entry tables = true.
Proof.
  unfold plain_local.
  intros [[[[[Hri Hrc]%andb_prop Hu]%andb_prop Hs]%andb_prop Hi]%andb_prop Ht]%andb_prop.
  split; [exact Hri|]. split; [exact Hrc|].
  split; [by apply no_paren_JSON|]. split; [by apply no_paren_JSON_strings|].
  by split.
Qed.

(** The occurrences of [m] in the local module without the seed slot are
    those of the client construction. *)
Lemma local_unseeded_occurrences (tables : DBTables) root seedFiles :
  head_safe m dbExport = true ->
  plain_local tables root seedFiles = true ->
  occurrences m (getLocalVirtualModContents tables root seedFiles false) =
  occurrences m dbExport.
Proof using Hm Hexport_safe Hexport_none.
  intros Hdb (Hri & Hrc & Hu & Hs & Hi & Ht)%plain_local_values.
  apply (adds_occurrences m); [apply marker_nonempty|].
  unfold getLocalVirtualModContents. cbv beta iota zeta.
  eapply adds_eq.
  { repeat (eapply adds_app; [first [solve [eauto 8 with adds nocore]
                                    |apply adds_lit; [apply marker_nonempty|exact Hdb]]|]).
    by apply adds_exports. }
  lia.
Qed.

(** The occurrences of [m] in the local module with the seed slot. *)
Lemma local_seeded_occurrences (tables : DBTables) root seedFiles k :
  head_safe m dbExport = true ->
  head_safe m "await seedLocal({" = true ->
  head_safe m "userSeedGlob: import.meta.glob(" = true ->
  head_safe m ("integrationSeedImports: [" +:+ "() => import(") = true ->
  occurrences m ("integrationSeedImports: [" +:+ "() => import(") = k ->
  head_safe m ("," +:+ "() => import(") = true ->
  occurrences m ("," +:+ "() => import(") = k ->
  plain_local tables root seedFiles = true ->
  occurrences m (getLocalVirtualModContents tables root seedFiles true) =
  occurrences m dbExport + occurrences m "await seedLocal({" +
  occurrences m "userSeedGlob: import.meta.glob(" + k * length seedFiles.
Proof using Hm Hexport_safe Hexport_none.
  intros Hdb Hcall Hglob Hfirst Hfirst_k Hnext Hnext_k
    (Hri & Hrc & Hu & Hs & Hi & Ht)%plain_local_values.
  apply (adds_occurrences m); [apply marker_nonempty|].
  unfold getLocalVirtualModContents, seedLocalImport, seedLocalCall,
    integrationSeedImports.
  cbv beta iota zeta.
  eapply adds_eq.
  { repeat (eapply adds_app; [first [solve [eauto 8 with adds nocore]
                                    |apply adds_lit; [apply marker_nonempty|exact Hdb]]|]).
    eapply adds_app.
    { eapply adds_app; [apply adds_lit; [apply marker_nonempty|exact Hcall]|].
      do 2 (eapply adds_app; [solve [eauto 8 with adds nocore]|]).
      eapply adds_app; [apply adds_lit; [apply marker_nonempty|exact Hglob]|].
      do 4 (eapply adds_app; [solve [eauto 8 with adds nocore]|]).
      eapply adds_app3.
      - apply (adds_thunks k _ Hnext Hnext_k Hi); [reflexivity|exact Hfirst|exact Hfirst_k].
      - repeat (eapply adds_app; [solve [eauto 8 with adds nocore]|]). solve [eauto 8 with adds nocore]. }
    repeat (eapply adds_app; [solve [eauto 8 with adds nocore]|]).
    by apply adds_exports. }
  unfold integrationSeedFilePaths. rewrite length_map. lia.
Qed.

Lemma plain_studio_values (tables : DBTables) appToken :
  plain_studio tables appToken = true ->
  no_paren RUNTIME_IMPORT = true /\ no_paren RUNTIME_CONFIG_IMPORT = true /\
  no_paren (JS.JSON_stringify_string appToken) = true /\
  no_paren (JS.JSON_stringify_string (getRemoteDatabaseUrl tt)) = true /\
  forallb plain_entry tables = true.
Proof.
  unfold plain_studio.
  intros [[[[Hri Hrc]%andb_prop Ha]%andb_prop Hu]%andb_prop Ht]%andb_prop.
  split; [exact Hri|]. split; [exact Hrc|].
  split; [by apply no_paren_JSON|]. split; [by apply no_paren_JSON|]. exact Ht.
Qed.

(** The occurrences of [m] in the remote module are those of the client
    construction. *)
Lemma studio_occurrences (tables : DBTables) appToken :
  head_safe m "export const db = await createRemoteDatabaseClient(" = true ->
  plain_studio tables appToken = true ->
  occurrences m (getStudioVirtualModContents tables appToken) =
  occurrences m "export const db = await createRemoteDatabaseClient(".
Proof using Hm Hexport_safe Hexport_none.
  intros Hdb (Hri & Hrc & Ha & Hu & Ht)%plain_studio_values.
  apply (adds_occurrences m); [apply marker_nonempty|].
  unfold getStudioVirtualModContents, remoteUrlExpression.
  eapply adds_eq.
  { repeat (eapply adds_app; [first [solve [eauto 8 with adds nocore]
                                    |apply adds_lit; [apply marker_nonempty|exact Hdb]]|]).
    eapply adds_app; [by apply adds_exports|].
    eapply adds_app; solve [eauto 8 with adds nocore]. }
  lia.
Qed.

End Counting.

(** ** [JSON.stringify] of a string can be read back *)

Section Quoting.

Lemma unquote_quote_char c r :
  unquote_chars (JS.quote_char c +:+ r) = option_map (String c) (unquote_chars r).
Proof. destruct c as [[] [] [] [] [] [] [] []]; reflexivity. Qed.

Lemma unquote_quote_chars s : unquote_chars (JS.quote_chars s) = Some s.
Proof.
  induction s as [|c s IH]; [reflexivity|].
  cbn [JS.quote_chars]. by rewrite unquote_quote_char, IH.
Qed.

Lemma string_app_inv_head a b c : a +:+ b = a +:+ c -> b = c.
Proof.
  induction a as [|x a IH]; [done|]. rewrite !string_app_cons. intros [= Heq]. by apply IH.
Qed.

Lemma string_app_inv_tail a b c : a +:+ c = b +:+ c -> a = b.
Proof.
  revert b. induction a as [|x a IH]; intros [|y b].
  - reflexivity.
  - intros Heq. apply (f_equal String.length) in Heq.
    rewrite string_app_cons in Heq. change (EmptyString +:+ c) with c in Heq.
    cbn [String.length] in Heq. rewrite string_length_app in Heq. lia.
  - intros Heq. apply (f_equal String.length) in Heq.
    rewrite string_app_cons in Heq. change (EmptyString +:+ c) with c in Heq.
    cbn [String.length] in Heq. rewrite string_length_app in Heq. lia.
  - rewrite !string_app_cons. intros [= -> Heq]. f_equal. by apply IH.
Qed.

Lemma JSON_stringify_string_inj s s' :
  JS.JSON_stringify_string s = JS.JSON_stringify_string s' -> s = s'.
Proof.
  unfold JS.JSON_stringify_string. intros Heq.
  apply string_app_inv_head, string_app_inv_tail in Heq.
  apply (f_equal unquote_chars) in Heq.
  rewrite !unquote_quote_chars in Heq. by injection Heq.
Qed.

End Quoting.

Section GeneratedModules.

Context {H : Host} {E : Engine}.

Implicit Types (tables : DBTables) (root : URL) (seedFiles : list SeedRef).

Lemma occurs_at_split (text a p b : string) :
  text = a +:+ p +:+ b -> occurs_at p text (String.length a).
Proof. intros ->. apply occurs_at_intro. Qed.

(** The text before the [db] export of the local module. *)
Lemma local_text_split tables root seedFiles shouldSeed :
  exists head,
    getLocalVirtualModContents tables root seedFiles shouldSeed =
    head +:+ dbExport +:+ (nl +:+ nl) +:+
    (if shouldSeed then seedLocalCall root seedFiles else EmptyString) +:+
    (nl +:+ nl) +:+ configExport +:+ (nl +:+ nl) +:+
    getStringifiedCollectionExports tables.
Proof.
  eexists (nl +:+ "import { asDrizzleTable, createLocalDatabaseClient } from " +:+
           RUNTIME_IMPORT +:+ ";" +:+ nl +:+
           (if shouldSeed then seedLocalImport else EmptyString) +:+ nl +:+ nl +:+
           "const dbUrl = " +:+ JSON_stringify_URL (URL_new DB_PATH root) +:+
           ";" +:+ nl).
  unfold getLocalVirtualModContents, configExport.
  by rewrite ?string_app_assoc.
Qed.

Lemma export_occurs tables (head : string) entry :
  In entry (JS.Object_entries tables) ->
  exists q,
    occurs_at (collection_export entry)
      (head +:+ getStringifiedCollectionExports tables) q /\
    String.length head <= q.
Proof.
  intros Hin. unfold getStringifiedCollectionExports.
  destruct (join_occurs nl (collection_export entry)
              (List.map collection_export (JS.Object_entries tables))) as (a & b & Hab).
  { by apply in_map. }
  exists (String.length (head +:+ a)). split.
  - apply (occurs_at_split _ _ _ b). by rewrite Hab, ?string_app_assoc.
  - rewrite string_length_app. lia.
Qed.

(** The counts of the local module text when no substituted value holds
    an opening parenthesis. *)
Lemma local_counts (tables : DBTables) root seedFiles :
  plain_local tables root seedFiles = true ->
  occurrences "await seedLocal(" (getLocalVirtualModContents tables root seedFiles true) = 1 /\
  occurrences "import.meta.glob(" (getLocalVirtualModContents tables root seedFiles true) = 1 /\
  occurrences "() => import(" (getLocalVirtualModContents tables root seedFiles true) =
    length seedFiles /\
  occurrences "seedLocal(" (getLocalVirtualModContents tables root seedFiles false) = 0.
Proof.
  intros Hplain. repeat split.
  - rewrite (local_seeded_occurrences "await seedLocal(" eq_refl eq_refl eq_refl
               tables root seedFiles 0) by first [exact Hplain|reflexivity].
    count_closed. lia.
  - rewrite (local_seeded_occurrences "import.meta.glob(" eq_refl eq_refl eq_refl
               tables root seedFiles 0) by first [exact Hplain|reflexivity].
    count_closed. lia.
  - rewrite (local_seeded_occurrences "() => import(" eq_refl eq_refl eq_refl
               tables root seedFiles 1) by first [exact Hplain|reflexivity].
    count_closed. lia.
  - rewrite (local_unseeded_occurrences "seedLocal(" eq_refl eq_refl eq_refl
               tables root seedFiles) by first [exact Hplain|reflexivity].
    reflexivity.
Qed.

(** The counts of the remote module text when no substituted value holds
    an opening parenthesis. *)
Lemma studio_counts (tables : DBTables) appToken :
  plain_studio tables appToken = true ->
  occurrences "seedLocal(" (getStudioVirtualModContents tables appToken) = 0 /\
  occurrences "import.meta.glob(" (getStudioVirtualModContents tables appToken) = 0.
Proof.
  intros Hplain. split.
  - rewrite (studio_occurrences "seedLocal(" eq_refl eq_refl eq_refl
               tables appToken) by first [exact Hplain|reflexivity].
    reflexivity.
  - rewrite (studio_occurrences "import.meta.glob(" eq_refl eq_refl eq_refl
               tables appToken) by first [exact Hplain|reflexivity].
    reflexivity.
Qed.

(** C4 (as amended). With [shouldSeed] the local module text has the
    awaited seed invocation after the export of the [db] client and before
    the re-export of the runtime configuration and every per-table export
    statement. Its template writes one seed invocation with one eager glob
    import, over the user seed file paths, and one deferred import thunk
    per integration seed file, in order, none when there is none. Without
    [shouldSeed] the template writes no seed invocation. When no
    substituted value holds an opening parenthesis, these are the counts
    of the text itself: one seed invocation, one glob import, one thunk
    per integration seed file, and no seed invocation without
    [shouldSeed]. *)
Theorem local_module_seed_placement tables root seedFiles :
  let text := getLocalVirtualModContents tables root seedFiles true in
  let call := seedLocalCall root seedFiles in
  let template := local_template tables root seedFiles true in
  let unseeded := local_template tables root seedFiles false in
  (exists p_db p_call p_cfg,
     occurs_at dbExport text p_db /\
     occurs_at call text p_call /\
     occurs_at configExport text p_cfg /\
     p_db + String.length dbExport <= p_call /\
     p_call + String.length call <= p_cfg /\
     forall entry, In entry (JS.Object_entries tables) ->
       exists q, occurs_at (collection_export entry) text q /\
                 p_cfg + String.length configExport <= q) /\
  render template = text /\
  written "await seedLocal(" template = 1 /\
  written "import.meta.glob(" template = 1 /\
  (exists k, occurs_at globImport call k) /\
  written "() => import(" template = length seedFiles /\
  integrationSeedImports root seedFiles =
    List.map (fun ref => seedImport (integrationSeedFilePath root ref)) seedFiles /\
  render unseeded = getLocalVirtualModContents tables root seedFiles false /\
  written "seedLocal" unseeded = 0 /\
  (plain_local tables root seedFiles = true ->
   occurrences "await seedLocal(" text = 1 /\
   occurrences "import.meta.glob(" text = 1 /\
   occurrences "() => import(" text = length seedFiles /\
   occurrences "seedLocal("
     (getLocalVirtualModContents tables root seedFiles false) = 0).
Proof.
  intros text call template unseeded.
  split; [|split; [|split; [|split; [|split; [|split; [|split; [|split; [|split]]]]]]]].
  - destruct (local_text_split tables root seedFiles true) as [head Htext].
    fold text call in Htext.
    set (a1 := head) in *.
    set (a2 := a1 +:+ dbExport +:+ (nl +:+ nl)).
    set (a3 := a2 +:+ call +:+ (nl +:+ nl)).
    set (a4 := a3 +:+ configExport +:+ (nl +:+ nl)).
    exists (String.length a1), (String.length a2), (String.length a3).
    split; [by apply (occurs_at_split _ _ _ _ Htext)|].
    split.
    { apply (occurs_at_split text a2 call
               ((nl +:+ nl) +:+ configExport +:+ (nl +:+ nl) +:+
                getStringifiedCollectionExports tables)).
      subst a2. by rewrite Htext, ?string_app_assoc. }
    split.
    { apply (occurs_at_split text a3 configExport
               ((nl +:+ nl) +:+ getStringifiedCollectionExports tables)).
      subst a3 a2. by rewrite Htext, ?string_app_assoc. }
    split; [subst a2; rewrite !string_length_app; lia|].
    split; [subst a3; rewrite !string_length_app; lia|].
    intros entry Hin.
    destruct (export_occurs tables a4 entry Hin) as (q & Hq & Hle).
    exists q. split.
    + replace text with (a4 +:+ getStringifiedCollectionExports tables); [exact Hq|].
      subst a4 a3 a2. by rewrite Htext, ?string_app_assoc.
    + subst a4. rewrite !string_length_app in Hle. lia.
  - apply render_local_template.
  - subst template. unfold local_template, seedLocalImport_template, seedLocalCall_template.
    rewrite !written_app, written_seedImports, written_exports by reflexivity.
    cbn [written]. count_closed. lia.
  - subst template. unfold local_template, seedLocalImport_template, seedLocalCall_template.
    rewrite !written_app, written_seedImports, written_exports by reflexivity.
    cbn [written]. count_closed. lia.
  - exists (String.length ("await seedLocal({" +:+ nl +:+ tab +:+ "userSeedGlob: ")).
    apply (occurs_at_split call _ globImport
             ("," +:+ nl +:+ tab +:+ "integrationSeedImports: [" +:+
              JS.join "," (integrationSeedImports root seedFiles) +:+ "]," +:+ nl +:+
              "});")).
    subst call. unfold seedLocalCall, globImport. by rewrite ?string_app_assoc.
  - subst template. unfold local_template, seedLocalImport_template, seedLocalCall_template.
    rewrite !written_app, written_seedImports, written_exports by reflexivity.
    cbn [written]. count_closed. lia.
  - unfold integrationSeedImports, integrationSeedFilePaths. by rewrite List.map_map.
  - apply render_local_template.
  - subst unseeded. unfold local_template.
    rewrite !written_app, written_exports by reflexivity.
    cbn [written]. count_closed. lia.
  - apply local_counts.
Qed.

(** C6 (as amended). The template of the remote module writes no seed
    invocation and no glob expression, and when no substituted value holds
    an opening parenthesis the text holds none. Its client constructor
    call receives the JSON-stringified access token and an endpoint
    expression that reads the runtime environment variable and falls back
    to the URL [getRemoteDatabaseUrl()] returned. It exports one binding
    per table, built from the table name and its serialised definition by
    the function the local module uses. *)
Theorem studio_module_text tables appToken :
  let text := getStudioVirtualModContents tables appToken in
  let template := studio_template tables appToken in
  render template = text /\
  written "seedLocal" template = 0 /\
  written "import.meta.glob" template = 0 /\
  (exists p, occurs_at (remoteClientCall appToken) text p) /\
  remoteUrlExpression =
    "import.meta.env.ASTRO_STUDIO_REMOTE_DB_URL ?? " +:+
    JS.JSON_stringify_string (getRemoteDatabaseUrl tt) /\
  (exists head,
     text = head +:+ getStringifiedCollectionExports tables +:+ nl +:+ tab) /\
  (forall root seedFiles shouldSeed, exists head,
     getLocalVirtualModContents tables root seedFiles shouldSeed =
     head +:+ getStringifiedCollectionExports tables) /\
  getStringifiedCollectionExports tables =
    JS.join nl (List.map collection_export (JS.Object_entries tables)) /\
  written "export const " (exports_template tables) = length tables /\
  (forall entry, In entry tables ->
     exists q, occurs_at (collection_export entry) text q) /\
  (plain_studio tables appToken = true ->
   occurrences "seedLocal(" text = 0 /\
   occurrences "import.meta.glob(" text = 0).
Proof.
  intros text template.
  set (head := nl +:+ "import {asDrizzleTable, createRemoteDatabaseClient} from " +:+
               RUNTIME_IMPORT +:+ ";" +:+ nl +:+ nl +:+ "export const db = await ").
  set (mid := ";" +:+ nl +:+ nl +:+ "export * from " +:+ RUNTIME_CONFIG_IMPORT +:+
              ";" +:+ nl +:+ nl).
  assert (Htext : text = head +:+ remoteClientCall appToken +:+ mid +:+
                         getStringifiedCollectionExports tables +:+ nl +:+ tab).
  { subst text head mid. unfold getStudioVirtualModContents, remoteClientCall.
    by rewrite ?string_app_assoc. }
  split; [apply render_studio_template|].
  split.
  { subst template. unfold studio_template.
    rewrite !written_app, written_exports by reflexivity.
    cbn [written]. count_closed. lia. }
  split.
  { subst template. unfold studio_template.
    rewrite !written_app, written_exports by reflexivity.
    cbn [written]. count_closed. lia. }
  split; [exists (String.length head); by apply (occurs_at_split _ _ _ _ Htext)|].
  split; [reflexivity|].
  split.
  { exists (head +:+ remoteClientCall appToken +:+ mid).
    by rewrite Htext, ?string_app_assoc. }
  split.
  { intros root seedFiles shouldSeed.
    destruct (local_text_split tables root seedFiles shouldSeed) as [h Hh].
    exists (h +:+ dbExport +:+ (nl +:+ nl) +:+
            (if shouldSeed then seedLocalCall root seedFiles else EmptyString) +:+
            (nl +:+ nl) +:+ configExport +:+ (nl +:+ nl)).
    by rewrite Hh, ?string_app_assoc. }
  split; [reflexivity|].
  split.
  { rewrite written_exports by reflexivity. count_closed. lia. }
  split; [|apply studio_counts].
  intros entry Hin.
  apply (Permutation_in _ (Permutation_sym (Object_entries_perm tables))) in Hin.
  destruct (join_occurs nl (collection_export entry)
              (List.map collection_export (JS.Object_entries tables))) as (a & b & Hab).
  { by apply in_map. }
  exists (String.length (head +:+ remoteClientCall appToken +:+ mid +:+ a)).
  apply (occurs_at_split _ _ _ (b +:+ nl +:+ tab)).
  rewrite Htext. unfold getStringifiedCollectionExports.
  by rewrite Hab, ?string_app_assoc.
Qed.

(** C8 (as amended). The local module text is a function of the tables,
    the root, the seed files and the seed flag: it is the same whatever
    [getRemoteDatabaseUrl()] returns in the process that generates it. The
    remote module text is a function of the tables, the access token and
    the URL that call returns when the text is generated: for the same
    tables and token, two texts are identical exactly when the call
    returned the same URL. *)
Theorem rendering_deterministic tables root seedFiles (shouldSeed : bool)
    (appToken url url' : string) :
  getLocalVirtualModContents (H := with_remote_url H url)
    tables root seedFiles shouldSeed =
  getLocalVirtualModContents (H := with_remote_url H url')
    tables root seedFiles shouldSeed /\
  (getStudioVirtualModContents (H := with_remote_url H url) tables appToken =
   getStudioVirtualModContents (H := with_remote_url H url') tables appToken <->
   url = url').
Proof.
  split; [reflexivity|]. split; [|by intros ->].
  unfold getStudioVirtualModContents, remoteUrlExpression.
  cbn [getRemoteDatabaseUrl with_remote_url].
  intros Heq.
  do 9 apply string_app_inv_head in Heq.
  rewrite !string_app_assoc in Heq.
  apply (string_app_inv_head "import.meta.env.ASTRO_STUDIO_REMOTE_DB_URL ?? ") in Heq.
  apply JSON_stringify_string_inj.
  by apply string_app_inv_tail in Heq.
Qed.

Lemma seedImport_occurs tables root seedFiles ref :
  In ref seedFiles ->
  exists q,
    occurs_at (seedImport (integrationSeedFilePath root ref))
      (getLocalVirtualModContents tables root seedFiles true) q.
Proof.
  intros Hin.
  destruct (local_text_split tables root seedFiles true) as [head Htext].
  destruct (join_occurs "," (seedImport (integrationSeedFilePath root ref))
              (integrationSeedImports root seedFiles)) as (a & b & Hab).
  { unfold integrationSeedImports, integrationSeedFilePaths.
    rewrite List.map_map. by apply (in_map (fun r => seedImport (integrationSeedFilePath root r))). }
  exists (String.length
            (head +:+ dbExport +:+ (nl +:+ nl) +:+
             "await seedLocal({" +:+ nl +:+ tab +:+
             "userSeedGlob: import.meta.glob(" +:+
             JS.JSON_stringify_strings userSeedFilePaths +:+
             ", { eager: true })," +:+ nl +:+ tab +:+
             "integrationSeedImports: [" +:+ a)).
  apply (occurs_at_split _ _ _
           (b +:+ "]," +:+ nl +:+ "});" +:+ (nl +:+ nl) +:+ configExport +:+
            (nl +:+ nl) +:+ getStringifiedCollectionExports tables)).
  rewrite Htext. unfold seedLocalCall. rewrite Hab.
  by rewrite ?string_app_assoc.
Qed.

(** C9 (as amended). Every integration seed file gives one deferred import
    thunk, in order. A string that starts with a dot is resolved against
    the path of the project root; every other string (an absolute path, a
    bare specifier, a relative path without a leading dot) is used
    unchanged; a URL gives its pathname. *)
Theorem integration_seed_paths tables root seedFiles :
  integrationSeedImports root seedFiles =
    List.map (fun ref => seedImport (integrationSeedFilePath root ref)) seedFiles /\
  (forall ref, In ref seedFiles ->
     exists q,
       occurs_at (seedImport (integrationSeedFilePath root ref))
         (getLocalVirtualModContents tables root seedFiles true) q) /\
  (forall s,
     (JS.startsWith s "." = true ->
      integrationSeedFilePath root (seed_string s) =
        path_resolve (fileURLToPath root) s) /\
     (JS.startsWith s "." = false ->
      integrationSeedFilePath root (seed_string s) = s)) /\
  (forall u, integrationSeedFilePath root (seed_URL u) = URL_pathname u).
Proof.
  split; [|split; [|split]].
  - unfold integrationSeedImports, integrationSeedFilePaths. by rewrite List.map_map.
  - intros ref. apply seedImport_occurs.
  - intros s. unfold integrationSeedFilePath, resolveSeedId.
    split; by intros ->.
  - reflexivity.
Qed.

End GeneratedModules.

(** ** Idempotence of the re-creation on the embedded database *)

Section Idempotence.

Import LocalDb LocalDbBlocks.

Context {H : Host} (parse : string -> option Statement)
  (valid : gmap string TableState -> bool).

Implicit Types (d : gmap string TableState) (sts : list Statement).

Lemma run_app sts1 sts2 d :
  run (sts1 ++ sts2) d =
  match run sts1 d with Some d' => run sts2 d' | None => None end.
Proof.
  revert d. induction sts1 as [|st sts1 IH]; intros d; simpl; [reflexivity|].
  destruct (step st d); [apply IH|reflexivity].
Qed.

Lemma run_indexes n ddl acc rs idxs d :
  run (List.map (fun i => CreateIndex i n) idxs)
      (<[n := {| definition := ddl; indexes := acc; rows := rs |}]> d) =
  Some (<[n := {| definition := ddl; indexes := acc ++ idxs; rows := rs |}]> d).
Proof.
  revert acc. induction idxs as [|i idxs IH]; intros acc; simpl.
  - by rewrite app_nil_r.
  - rewrite lookup_insert_eq. simpl. rewrite insert_insert_eq, IH.
    by rewrite <- app_assoc.
Qed.

(** Whatever the database holds, the block of a table leaves that table
    freshly created and the others as they were. *)
Lemma run_table_block n ddl idxs d :
  run (table_block n ddl idxs) d = Some (<[n := fresh ddl idxs]> d).
Proof.
  unfold table_block. simpl. rewrite lookup_delete_eq.
  rewrite insert_delete_eq. apply (run_indexes n ddl [] [] idxs d).
Qed.

(** A list of blocks overrides the tables it names. *)
Lemma run_blocks names sts :
  blocks names sts ->
  exists m : gmap string TableState,
    (forall d, run sts d = Some (m ∪ d)) /\
    (forall n st, m !! n = Some st -> rows st = []) /\
    (forall n, In n names -> is_Some (m !! n)).
Proof.
  induction 1 as [|n ddl idxs names sts Hb (m & Hrun & Hrows & Hnames)].
  - exists ∅. split; [|split].
    + intros d. simpl. by rewrite (left_id_L ∅ (∪)).
    + intros n st. by rewrite lookup_empty.
    + intros n [].
  - exists (m ∪ {[n := fresh ddl idxs]}). split; [|split].
    + intros d. rewrite run_app, run_table_block, Hrun.
      by rewrite insert_union_singleton_l, (assoc_L (∪)).
    + intros k st Hk. apply lookup_union_Some_raw in Hk as [Hk|[_ Hk]].
      * by apply (Hrows k).
      * apply lookup_singleton_Some in Hk as [_ <-]. reflexivity.
    + intros k [<-|Hk].
      * destruct (m !! n) as [st|] eqn:Hm.
        -- exists st. by apply lookup_union_Some_l.
        -- exists (fresh ddl idxs). rewrite lookup_union_r by done.
           apply lookup_singleton_eq.
      * destruct (Hnames k Hk) as [st Hst]. exists st.
        by apply lookup_union_Some_l.
Qed.

Lemma read_app qs1 qs2 :
  read parse (qs1 ++ qs2) =
  match read parse qs1, read parse qs2 with
  | Some s1, Some s2 => Some (s1 ++ s2)
  | _, _ => None
  end.
Proof.
  induction qs1 as [|q qs1 IH]; simpl.
  - by destruct (read parse qs2).
  - rewrite IH. destruct (parse (sql_text q)); [|reflexivity].
    destruct (read parse qs1); [|reflexivity].
    by destruct (read parse qs2).
Qed.

Lemma read_indexes n texts sts :
  forallb (reads_index parse n) texts = true ->
  read parse (List.map sql_raw texts) = Some sts ->
  exists idxs, sts = List.map (fun i => CreateIndex i n) idxs.
Proof.
  revert sts. induction texts as [|text texts IH]; intros sts; simpl.
  - intros _ [= <-]. by exists [].
  - intros [Hr Hall]%andb_prop. unfold reads_index in Hr.
    destruct (parse text) as [[| | |i n']|]; try discriminate.
    apply String.eqb_eq in Hr as ->.
    destruct (read parse (List.map sql_raw texts)) as [ss|] eqn:Hss; [|discriminate].
    intros [= <-]. destruct (IH ss Hall eq_refl) as [idxs ->].
    by exists (i :: idxs).
Qed.

Lemma read_table n t qs sts :
  understands_table parse (n, t) = true ->
  table_statements (n, t) = Returned qs ->
  read parse qs = Some sts ->
  exists ddl idxs, sts = table_block n ddl idxs.
Proof.
  unfold understands_table, table_statements.
  intros [[Hd Hc]%andb_prop Hi]%andb_prop.
  destruct (getCreateTableQuery n t) as [c|e]; [|discriminate].
  destruct (getCreateIndexQueries n t) as [ixs|e]; [|discriminate].
  simpl. intros [= <-]. simpl.
  unfold reads_drop in Hd. simpl in Hd.
  destruct (parse ("DROP TABLE IF EXISTS " +:+ escapeName n)) as [[|n'| |]|];
    try discriminate.
  apply String.eqb_eq in Hd as ->.
  unfold reads_create in Hc.
  destruct (parse c) as [[| |n' ddl|]|]; try discriminate.
  apply String.eqb_eq in Hc as ->.
  destruct (read parse (List.map sql_raw ixs)) as [ss|] eqn:Hss; [|discriminate].
  intros [= <-]. destruct (read_indexes n ixs ss Hi Hss) as [idxs ->].
  by exists ddl, idxs.
Qed.

Lemma read_all entries qs sts :
  forallb (understands_table parse) entries = true ->
  all_statements entries = Returned qs ->
  read parse qs = Some sts ->
  blocks (List.map fst entries) sts.
Proof.
  revert qs sts. induction entries as [|[n t] entries IH]; intros qs sts.
  - intros _ [= <-] [= <-]. constructor.
  - simpl forallb. intros [Ht Hall]%andb_prop.
    cbn [all_statements].
    destruct (table_statements (n, t)) as [b|e] eqn:Hb; [|discriminate].
    destruct (all_statements entries) as [bs|e] eqn:Hbs; [|discriminate].
    simpl. intros [= <-]. rewrite read_app.
    destruct (read parse b) as [sb|] eqn:Hsb; [|discriminate].
    destruct (read parse bs) as [sbs|] eqn:Hsbs; [|discriminate].
    intros [= <-].
    destruct (read_table n t b sb Ht Hb Hsb) as (ddl & idxs & ->).
    simpl. constructor. by apply (IH bs).
Qed.

(** In the statements of a list of tables, the CREATE of every table comes
    right after the DROP-IF-EXISTS of that table. *)
Lemma create_after_drop entries qs n t :
  all_statements entries = Returned qs ->
  In (n, t) entries ->
  exists createText before after,
    getCreateTableQuery n t = Returned createText /\
    qs = before ++ dropQuery n :: sql_raw createText :: after.
Proof.
  revert qs. induction entries as [|[n' t'] entries IH]; intros qs; [done|].
  cbn [all_statements table_statements].
  destruct (getCreateTableQuery n' t') as [c|e] eqn:Hc; [|discriminate].
  destruct (getCreateIndexQueries n' t') as [ixs|e]; [|discriminate].
  cbn [obind].
  destruct (all_statements entries) as [bs|e]; [|discriminate].
  cbn [obind]. intros [= <-] [[= <- <-]|Hin].
  - exists c, [], (List.map sql_raw ixs ++ bs). by split.
  - destruct (IH bs eq_refl Hin) as (c' & before & after & Hc' & ->).
    exists c', (dropQuery n' :: sql_raw c :: List.map sql_raw ixs ++ before), after.
    split; [exact Hc'|]. simpl. by rewrite <- List.app_assoc.
Qed.

(** A batch for a list of tables either is rejected whatever the database
    holds, or leads to the database in which the tables it names are
    overridden with empty ones: it commits that state when the state is
    valid, and otherwise fails and changes nothing. *)
Lemma batch_recreate url entries qs :
  reads_pragma parse (sql_text defer_foreign_keys) = true ->
  forallb (understands_table parse) entries = true ->
  all_statements entries = Returned qs ->
  (exists msg, forall d,
     batch parse valid url (defer_foreign_keys :: qs) d = (Thrown msg, d)) \/
  (exists (m : gmap string TableState) msg,
     (forall d, batch parse valid url (defer_foreign_keys :: qs) d =
                if valid (m ∪ d) then (Returned tt, m ∪ d) else (Thrown msg, d)) /\
     (forall n st, m !! n = Some st -> rows st = []) /\
     (forall n, In n (List.map fst entries) -> is_Some (m !! n))).
Proof.
  intros Hp Hall Hqs. unfold batch. cbn [read].
  unfold reads_pragma in Hp.
  destruct (parse (sql_text defer_foreign_keys)) as [[| | |]|]; try discriminate.
  destruct (read parse qs) as [sts|] eqn:Hsts.
  - right. destruct (run_blocks _ _ (read_all entries qs sts Hall Hqs Hsts))
      as (m & Hrun & Hrows & Hnames).
    exists m. eexists. split; [|by split].
    intros d. cbn [run step]. rewrite Hrun. reflexivity.
  - left. eexists. reflexivity.
Qed.

Lemma pending_sql_db_run db (qs : list SQL) :
  List.map pending_sql (List.map (db_run db) qs) = qs.
Proof. rewrite List.map_map. simpl. apply List.map_id. Qed.

(** C5. On the embedded database, re-creating the tables twice in a row
    leaves the database after the second run as it was after the first,
    and the second run ends as the first did: it does not fail on the
    tables the first created. After a successful run every table of the
    mapping exists and is empty. In the batch, the CREATE of every table
    comes right after the DROP-IF-EXISTS of that table. *)
Theorem recreateTables_idempotent db (tables : DBTables)
    (w : World (E := engine parse valid)) :
  understands parse tables = true ->
  let run1 := recreateTables (E := engine parse valid) db tables w in
  let run2 := recreateTables (E := engine parse valid) db tables (snd run1) in
  store (snd run2) = store (snd run1) /\
  fst run2 = fst run1 /\
  (fst run1 = Returned tt ->
   forall n t, In (n, t) tables ->
     exists st, (store (snd run1) : gmap string TableState) !! n = Some st /\
                rows st = []) /\
  (forall qs n t,
     all_statements (JS.Object_entries tables) = Returned qs ->
     In (n, t) tables ->
     exists createText before after,
       getCreateTableQuery n t = Returned createText /\
       qs = before ++ dropQuery n :: sql_raw createText :: after).
Proof.
  intros [Hp Hall]%andb_prop run1 run2. subst run1 run2.
  assert (Hentries : forallb (understands_table parse) (JS.Object_entries tables) = true).
  { apply forallb_forall. intros e He. rewrite forallb_forall in Hall. apply Hall.
    by apply (Permutation_in _ (Object_entries_perm tables)). }
  match goal with |- _ /\ _ /\ _ /\ ?Last => assert (Hlast : Last) end.
  { intros qs n t Hqs Hin. apply (create_after_drop _ _ _ _ Hqs).
    by apply (Permutation_in _ (Permutation_sym (Object_entries_perm tables))). }
  rewrite !(recreateTables_unfold (E := engine parse valid)).
  destruct (all_statements (JS.Object_entries tables)) as [qs|e] eqn:Hqs.
  - cbn zeta. cbn [engine_batch engine].
    rewrite pending_sql_db_run.
    destruct (batch_recreate (dbUrl db) _ qs Hp Hentries Hqs)
      as [[msg Hfail]|(m & msg & Hok & Hrows & Hnames)].
    + rewrite Hfail. cbn [snd store fst]. rewrite Hfail. cbn [snd store fst].
      split; [reflexivity|]. split; [reflexivity|]. split; [discriminate|exact Hlast].
    + rewrite (Hok (store w)). destruct (valid (m ∪ store w)) eqn:Hvalid.
      * cbn [snd store fst]. rewrite Hok. cbn [snd store fst].
        rewrite (assoc_L (∪)), (idemp_L (∪)), Hvalid. cbn [snd store fst].
        split; [reflexivity|]. split; [reflexivity|]. split; [|exact Hlast].
        intros _ n t Hin.
        apply (Permutation_in _ (Permutation_sym (Object_entries_perm tables))) in Hin.
        destruct (Hnames n) as [st Hst].
        { by apply (in_map fst) in Hin. }
        exists st. split; [by apply lookup_union_Some_l|by apply (Hrows n)].
      * cbn [snd store fst]. rewrite Hok. cbn [snd store fst].
        rewrite Hvalid. cbn [snd store fst].
        split; [reflexivity|]. split; [reflexivity|].
        split; [discriminate|exact Hlast].
  - cbn [snd fst logged store]. split; [reflexivity|]. split; [reflexivity|].
    split; [discriminate|exact Hlast].
Qed.

End Idempotence.

(** ** The properties on the concrete host *)

(** C2 (counterexample). For the mapping declared as [users] then [7], the
    batch submitted starts, after the deferring statement, with the
    statements of table [7]: it is the batch described for the order of
    [Object.entries], not the one described for the declaration order. *)
Lemma recreateTables_numeric_name_first :
  let w := Demo.world Demo.numeric_tables [] in
  exists stmts,
    calls_after (recreateTables Demo.client Demo.numeric_tables) w =
      [Call_recreateTables Demo.client; Call_batch Demo.client stmts] /\
    nth_error stmts 1 = Some (db_run Demo.client (dropQuery "7")) /\
    List.map fst (JS.Object_entries Demo.numeric_tables) = ["7"; "users"] /\
    described_batch Demo.client (JS.Object_entries Demo.numeric_tables) stmts /\
    ~ described_batch Demo.client Demo.numeric_tables stmts.
Proof.
  eexists. split; [vm_compute; reflexivity|].
  split; [reflexivity|]. split; [reflexivity|]. split.
  - eexists. split; vm_compute; reflexivity.
  - intros (qs & Hqs & Heq). vm_compute in Hqs.
    injection Hqs as <-. vm_compute in Heq. discriminate Heq.
Qed.

(** C4 (counterexample). In the local module rendered with the seed
    invocation, the export of the [db] client stands before the awaited
    seed invocation: the invocation is not before every export
    statement. And for a mapping whose key is a piece of code, the text
    holds [await seedLocal(] three times with the seed flag and
    [seedLocal(] twice without it, where the template writes it once and
    not at all: the key stands as code after [export const], and once
    more inside the quoted name. *)
Lemma db_export_precedes_seed_call :
  let text := getLocalVirtualModContents Demo.tables Demo.root [] true in
  let call := seedLocalCall Demo.root [] in
  (exists p_db p_call,
     first_offset dbExport text = Some p_db /\
     first_offset call text = Some p_call /\
     occurs_at dbExport text p_db /\
     occurs_at call text p_call /\
     occurrences "await seedLocal(" text = 1 /\
     p_db < p_call) /\
  occurrences "await seedLocal("
    (getLocalVirtualModContents Demo.seed_call_tables Demo.root [] true) = 3 /\
  written "await seedLocal("
    (local_template Demo.seed_call_tables Demo.root [] true) = 1 /\
  occurrences "seedLocal("
    (getLocalVirtualModContents Demo.seed_call_tables Demo.root [] false) = 2 /\
  written "seedLocal("
    (local_template Demo.seed_call_tables Demo.root [] false) = 0 /\
  occurs_at "export const a = await seedLocal({}), b = asDrizzleTable("
    (getLocalVirtualModContents Demo.seed_call_tables Demo.root [] false) 244 /\
  plain_local Demo.seed_call_tables Demo.root [] = false.
Proof.
  split.
  - vm_compute. do 2 eexists.
    split; [reflexivity|]. split; [reflexivity|].
    split; [reflexivity|]. split; [reflexivity|]. split; [reflexivity|]. lia.
  - repeat split; vm_compute; reflexivity.
Qed.

(** C6 (counterexample). For a mapping whose key is a piece of code, the
    remote module text holds a glob expression: the key is substituted as
    it is after [export const], where it is the initialiser of the
    exported binding, and once more inside the quoted name. The template
    itself writes none. *)
Lemma studio_table_name_brings_glob :
  let text := getStudioVirtualModContents Demo.glob_tables "token-123" in
  occurrences "import.meta.glob(" text = 2 /\
  occurs_at "export const a = import.meta.glob('/db/seed.ts'), b = asDrizzleTable("
    text 282 /\
  written "import.meta.glob" (studio_template Demo.glob_tables "token-123") = 0 /\
  plain_studio Demo.glob_tables "token-123" = false.
Proof. repeat split; vm_compute; reflexivity. Qed.

(** C8 (counterexample). The same tables and the same access token give
    two remote module texts when [getRemoteDatabaseUrl()] returns two
    URLs: the text holds the URL the call returned when it was
    generated. *)
Lemma remote_url_is_baked_in :
  let text := getStudioVirtualModContents
                (H := with_remote_url Demo.host "https://db.services.astro.build")
                Demo.tables "token-123" in
  let text' := getStudioVirtualModContents
                 (H := with_remote_url Demo.host "http://localhost:8080")
                 Demo.tables "token-123" in
  occurrences "http://localhost:8080" text = 0 /\
  occurrences "http://localhost:8080" text' = 1 /\
  text <> text'.
Proof.
  split; [reflexivity|]. split; [reflexivity|].
  intros Heq. apply (f_equal (occurrences "http://localhost:8080")) in Heq.
  vm_compute in Heq. discriminate Heq.
Qed.

(** C7 (counterexample). Loading the seed-bearing virtual id invokes
    [recreateTables] on no client and submits nothing: it only returns the
    module text, which holds the seed invocation. *)
Lemma load_seed_virtual_invokes_nothing :
  let w := Demo.world Demo.tables [] in
  let id_ := seedVirtual resolved in
  calls_after (load Demo.local_params id_) w = [] /\
  (forall db, ~ invokes_recreateTables Demo.local_params id_ w db) /\
  exists text,
    load Demo.local_params id_ w = (Returned (Some text), w) /\
    occurrences "await seedLocal(" text = 1.
Proof.
  split; [reflexivity|]. split.
  - intros db [later Hl]. vm_compute in Hl. discriminate Hl.
  - eexists. split; [reflexivity|]. vm_compute. reflexivity.
Qed.

(** C9 (counterexample). A project-relative path that does not start with
    a dot is not resolved against the project root: its thunk imports the
    string as it was given. *)
Lemma relative_seed_path_not_resolved :
  let s := "seeds/extra.ts" in
  JS.startsWith s "/" = false /\
  integrationSeedFilePath Demo.root (seed_string s) = s /\
  path_resolve (fileURLToPath Demo.root) s = "/proj/seeds/extra.ts" /\
  integrationSeedFilePath Demo.root (seed_string s) <>
    path_resolve (fileURLToPath Demo.root) s /\
  integrationSeedImports Demo.root [seed_string s] =
    ["() => import(" +:+ JS.JSON_stringify_string s +:+ ")"].
Proof.
  split; [reflexivity|]. split; [reflexivity|]. split; [reflexivity|].
  split; [|reflexivity]. vm_compute. discriminate.
Qed.

(** *** Instances of the theorems *)

(** The resolver on the concrete host: an importer under [src/], a seed
    file as importer, no importer, remote-managed mode, another id. *)
Lemma resolveId_cases_witness :
  resolveId Demo.local_params Demo.this "astro:db"
    (Some "/proj/src/pages/index.astro") = Some (seedVirtual resolved) /\
  resolveId Demo.local_params Demo.this "astro:db"
    (Some "/proj/db/seed.ts") = Some (virtual resolved) /\
  resolveId Demo.local_params Demo.this "astro:db" None = Some (virtual resolved) /\
  resolveId Demo.studio_params Demo.this "astro:db"
    (Some "/proj/src/pages/index.astro") = Some (virtual resolved) /\
  resolveId Demo.local_params Demo.this "astro:content"
    (Some "/proj/src/pages/index.astro") = None.
Proof.
  split; [|split; [|split; [|split]]].
  - destruct (resolveId_cases Demo.local_params Demo.this "astro:db"
                (Some "/proj/src/pages/index.astro")) as (_ & _ & Hlocal).
    destruct (Hlocal eq_refl eq_refl) as (Hin & _). apply Hin.
    exists "/proj/src/pages/index.astro", {| id := "/proj/src/pages/index.astro" |}.
    repeat split. discriminate.
  - destruct (resolveId_cases Demo.local_params Demo.this "astro:db"
                (Some "/proj/db/seed.ts")) as (_ & _ & Hlocal).
    destruct (Hlocal eq_refl eq_refl) as (_ & Hout & _). apply Hout.
    intros (raw & r & Hraw & _ & Hr & Hpre).
    injection Hraw as <-. injection Hr as <-. vm_compute in Hpre. discriminate Hpre.
  - destruct (resolveId_cases Demo.local_params Demo.this "astro:db" None)
      as (_ & _ & Hlocal).
    destruct (Hlocal eq_refl eq_refl) as (_ & _ & Hnone & _). apply Hnone. by left.
  - destruct (resolveId_cases Demo.studio_params Demo.this "astro:db"
                (Some "/proj/src/pages/index.astro")) as (_ & Hstudio & _).
    by apply Hstudio.
  - destruct (resolveId_cases Demo.local_params Demo.this "astro:content"
                (Some "/proj/src/pages/index.astro")) as (Hother & _).
    apply Hother. discriminate.
Defined.

(** No table of the concrete mapping has an array-index name: its entries
    are in declaration order. *)
Lemma recreateTables_batch_witness :
  forallb named Demo.tables = true /\
  JS.Object_entries Demo.tables = Demo.tables.
Proof.
  split; [reflexivity|].
  destruct (recreateTables_batch (H := Demo.host) Demo.client Demo.tables (Demo.world Demo.tables []))
    as (_ & _ & Hnamed).
  apply Hnamed. reflexivity.
Defined.

(** Loading [db/seed.ts] resynchronises and declines. *)
Lemma load_seed_file_resynchronizes_witness :
  In Demo.seed_ts (seedFilePaths Demo.local_params) /\
  invokes_recreateTables Demo.local_params Demo.seed_ts
    (Demo.world Demo.tables []) (local_client Demo.local_params) /\
  fst (load Demo.local_params Demo.seed_ts (Demo.world Demo.tables [])) =
    Returned None.
Proof.
  assert (Hin : In Demo.seed_ts (seedFilePaths Demo.local_params)).
  { vm_compute. by left. }
  split; [exact Hin|].
  destruct (load_seed_file_resynchronizes Demo.local_params Demo.seed_ts
              (Demo.world Demo.tables []) Hin) as (Hinv & _ & Hrun).
  split; [exact Hinv|].
  destruct Hrun as [_ Hdecline]. apply Hdecline; vm_compute; discriminate.
Defined.

(** In remote-managed mode, loading [db/seed.ts] resynchronises. *)
Lemma load_seed_file_studio_witness :
  In Demo.seed_ts (seedFilePaths Demo.studio_params) /\
  invokes_recreateTables Demo.studio_params Demo.seed_ts
    (Demo.world Demo.tables []) Demo.client.
Proof.
  assert (Hin : In Demo.seed_ts (seedFilePaths Demo.studio_params)).
  { vm_compute. by left. }
  split; [exact Hin|].
  exact (proj1 (load_seed_file_studio Demo.late_tables "token-123" Demo.srcDir
                  Demo.root Demo.seed_ts (Demo.world Demo.tables []) Hin)).
Defined.

(** The seed-bearing id is no seed file path and invokes nothing;
    [db/seed.ts] invokes the resynchronisation. *)
Lemma load_invokes_iff_seed_file_witness :
  ~ In (seedVirtual resolved) (seedFilePaths Demo.local_params) /\
  calls_after (load Demo.local_params (seedVirtual resolved))
    (Demo.world Demo.tables []) = [] /\
  exists db, invokes_recreateTables Demo.local_params Demo.seed_ts
               (Demo.world Demo.tables []) db.
Proof.
  assert (Hout : ~ In (seedVirtual resolved) (seedFilePaths Demo.local_params)).
  { vm_compute. intros [Heq|[Heq|[Heq|[Heq|[]]]]]; discriminate Heq. }
  split; [exact Hout|].
  destruct (load_invokes_iff_seed_file Demo.local_params (seedVirtual resolved)
              (Demo.world Demo.tables [])) as (_ & Hseed).
  split; [exact (proj1 (Hseed Hout))|].
  destruct (load_invokes_iff_seed_file Demo.local_params Demo.seed_ts
              (Demo.world Demo.tables [])) as (Hiff & _).
  apply Hiff. vm_compute. by left.
Defined.

(** Thunks and glob imports written for two, and for no, integration
    seed files, in the template and in the text. *)
Lemma local_module_seed_placement_witness :
  let seeds := [seed_string "./seeds/extra.ts";
                seed_URL {| href := "file:///opt/seed.mjs" |}] in
  written "() => import(" (local_template Demo.tables Demo.root seeds true) = 2 /\
  written "import.meta.glob("
    (local_template Demo.tables Demo.root [] true) = 1 /\
  written "() => import(" (local_template Demo.tables Demo.root [] true) = 0 /\
  (exists q,
     occurs_at (collection_export ("users", Demo.users))
       (getLocalVirtualModContents Demo.tables Demo.root [] true) q) /\
  plain_local Demo.tables Demo.root seeds = true /\
  occurrences "await seedLocal("
    (getLocalVirtualModContents Demo.tables Demo.root seeds true) = 1 /\
  occurrences "import.meta.glob("
    (getLocalVirtualModContents Demo.tables Demo.root seeds true) = 1 /\
  occurrences "() => import("
    (getLocalVirtualModContents Demo.tables Demo.root seeds true) = 2 /\
  occurrences "seedLocal("
    (getLocalVirtualModContents Demo.tables Demo.root seeds false) = 0.
Proof.
  intros seeds.
  destruct (local_module_seed_placement (H := Demo.host) Demo.tables Demo.root seeds)
    as (_ & _ & _ & _ & _ & Htwo & _ & _ & _ & Htext).
  destruct (local_module_seed_placement (H := Demo.host) Demo.tables Demo.root [])
    as ((p_db & p_call & p_cfg & _ & _ & _ & _ & _ & Hexports) &
        _ & _ & Hglob & _ & Hnone & _).
  split; [exact Htwo|]. split; [exact Hglob|]. split; [exact Hnone|].
  split.
  { destruct (Hexports ("users", Demo.users)) as (q & Hq & _).
    - vm_compute. by left.
    - by exists q. }
  assert (Hplain : plain_local Demo.tables Demo.root seeds = true) by reflexivity.
  split; [exact Hplain|]. exact (Htext Hplain).
Defined.

(** The remote module of the concrete host. *)
Lemma studio_module_text_witness :
  written "seedLocal" (studio_template Demo.tables "token-123") = 0 /\
  written "import.meta.glob" (studio_template Demo.tables "token-123") = 0 /\
  (exists q,
     occurs_at (collection_export ("posts", Demo.posts))
       (getStudioVirtualModContents Demo.tables "token-123") q) /\
  plain_studio Demo.tables "token-123" = true /\
  occurrences "seedLocal(" (getStudioVirtualModContents Demo.tables "token-123") = 0 /\
  occurrences "import.meta.glob("
    (getStudioVirtualModContents Demo.tables "token-123") = 0.
Proof.
  destruct (studio_module_text (H := Demo.host) Demo.tables "token-123")
    as (_ & Hseed & Hglob & _ & _ & _ & _ & _ & _ & Hexports & Htext).
  split; [exact Hseed|]. split; [exact Hglob|].
  split; [apply Hexports; right; by left|].
  assert (Hplain : plain_studio Demo.tables "token-123" = true) by reflexivity.
  split; [exact Hplain|]. exact (Htext Hplain).
Defined.

(** The modules of the concrete host, generated in a process in which
    [getRemoteDatabaseUrl()] returns the default URL and in one in which
    it returns a local one. *)
Lemma rendering_deterministic_witness :
  let H1 := with_remote_url Demo.host "https://db.services.astro.build" in
  let H2 := with_remote_url Demo.host "http://localhost:8080" in
  getLocalVirtualModContents (H := H1) Demo.tables Demo.root [] true =
  getLocalVirtualModContents (H := H2) Demo.tables Demo.root [] true /\
  (getStudioVirtualModContents (H := H1) Demo.tables "token-123" =
   getStudioVirtualModContents (H := H2) Demo.tables "token-123" <->
   "https://db.services.astro.build" = "http://localhost:8080").
Proof.
  exact (rendering_deterministic (H := Demo.host) Demo.tables Demo.root [] true
           "token-123" "https://db.services.astro.build" "http://localhost:8080").
Defined.

(** A dotted path, a bare specifier and a URL as integration seed
    files. *)
Lemma integration_seed_paths_witness :
  integrationSeedFilePath Demo.root (seed_string "./seeds/extra.ts") =
    "/proj/seeds/extra.ts" /\
  integrationSeedFilePath Demo.root (seed_string "@acme/db-seeds/seed.js") =
    "@acme/db-seeds/seed.js" /\
  integrationSeedFilePath Demo.root (seed_URL {| href := "file:///opt/seed.mjs" |}) =
    "/opt/seed.mjs".
Proof.
  destruct (integration_seed_paths (H := Demo.host) Demo.tables Demo.root []) as (_ & _ & Hs & Hu).
  split; [|split].
  - rewrite (proj1 (Hs "./seeds/extra.ts") eq_refl). reflexivity.
  - exact (proj2 (Hs "@acme/db-seeds/seed.js") eq_refl).
  - rewrite Hu. reflexivity.
Defined.

(** Two runs on the empty database of the concrete host. *)
Lemma recreateTables_idempotent_witness :
  let w := Demo.world Demo.tables [] in
  let run1 := recreateTables Demo.client Demo.tables w in
  let run2 := recreateTables Demo.client Demo.tables (snd run1) in
  understands Demo.parse Demo.tables = true /\
  fst run1 = Returned tt /\
  store (snd run2) = store (snd run1) /\
  fst run2 = fst run1.
Proof.
  intros w run1 run2.
  assert (Hu : understands Demo.parse Demo.tables = true) by reflexivity.
  split; [exact Hu|]. split; [reflexivity|].
  destruct (recreateTables_idempotent (H := Demo.host) Demo.parse Demo.valid
              Demo.client Demo.tables w Hu)
    as (Hstore & Hout & _).
  split; [exact Hstore|exact Hout].
Defined.

(** *** The scenarios of the specification, evaluated *)

(** Local mode, no integration seed: the text has one eager glob import, no
    deferred thunk, and the seed invocation before the first table
    export. *)
Example local_scenario :
  let text := getLocalVirtualModContents Demo.tables Demo.root [] true in
  occurrences "import.meta.glob(" text = 1 /\
  occurrences "() => import(" text = 0 /\
  occurrences "await seedLocal(" text = 1 /\
  first_offset "await seedLocal(" text = Some 237 /\
  first_offset "export const users" text = Some 453 /\
  occurrences "seedLocal"
    (getLocalVirtualModContents Demo.tables Demo.root [] false) = 0.
Proof. vm_compute. repeat split. Qed.

(** Remote mode: no seed invocation, no glob expression, and the
    constructor call with the token and the endpoint expression. *)
Example remote_scenario :
  let text := getStudioVirtualModContents Demo.tables "token-123" in
  occurrences "seedLocal" text = 0 /\
  occurrences "import.meta.glob" text = 0 /\
  occurrences (remoteClientCall "token-123") text = 1 /\
  occurrences "export const " text = 3.
Proof. vm_compute. repeat split. Qed.

(** Two tables declared as [posts] then [users]: the re-creation succeeds
    on the embedded database and leaves both tables, empty. *)
Example reversed_declaration_scenario :
  let ts := [("posts", Demo.posts); ("users", Demo.users)] in
  let run := recreateTables Demo.client ts (Demo.world ts []) in
  fst run = Returned tt /\
  (LocalDb.rows <$> ((store (snd run) : gmap string LocalDb.TableState) !! "posts")) = Some [] /\
  (LocalDb.rows <$> ((store (snd run) : gmap string LocalDb.TableState) !! "users")) = Some [].
Proof. vm_compute. repeat split. Qed.

(** A table definition the generator cannot translate: loading the seed
    file fails with the generator's error and submits no batch. *)
Example schema_error_scenario :
  let ts := [("users", Demo.users); ("drafts", Demo.broken)] in
  let run := load Demo.local_params Demo.seed_ts (Demo.world ts []) in
  fst run = Thrown "Unsupported column type in table drafts" /\
  calls (snd run) = [Call_recreateTables Demo.client].
Proof. vm_compute. repeat split. Qed.

(** A database that holds a table [comments] the mapping no longer names,
    with a row that refers to a post: re-creating [posts] empties it, the
    check at commit fails, and the batch leaves the database as it
    was. *)
Example constraint_violation_scenario :
  let table text rows :=
    {| LocalDb.definition := text; LocalDb.indexes := []; LocalDb.rows := rows |} in
  let d : gmap string LocalDb.TableState :=
    {[ "users" := table "CREATE TABLE users" [["1"; "ann"]];
       "posts" := table "CREATE TABLE posts" [["7"; "1"]];
       "comments" := table "CREATE TABLE comments" [["3"; "7"]] ]} in
  let w := {| session := (Demo.tables, []) : Session; store := d; calls := [] |} in
  let run := recreateTables Demo.client Demo.tables w in
  Demo.valid d = true /\
  fst run = Thrown "SQLITE_CONSTRAINT: FOREIGN KEY constraint failed" /\
  store (snd run) = d.
Proof. vm_compute. repeat split. Qed.

(** * Further properties *)

(** ** Loading and resolving together *)

Section FurtherLoad.

Context {H : Host} {E : Engine}.

Implicit Types (params : VitePluginDBParams) (this : PluginContext) (w : World).

Lemma load_result_None params id_ s :
  load_result params id_ s = None <-> ~ is_virtual id_.
Proof.
  unfold load_result, is_virtual.
  destruct (String.eqb_spec id_ (virtual resolved)) as [Hv|Hv];
    destruct (String.eqb_spec id_ (seedVirtual resolved)) as [Hs|Hs]; simpl.
  - split; [by destruct params|]. intros Hn. exfalso. apply Hn. by left.
  - split; [by destruct params|]. intros Hn. exfalso. apply Hn. by left.
  - split; [by destruct params|]. intros Hn. exfalso. apply Hn. by right.
  - split; [|done]. intros _ [Hx|Hx]; contradiction.
Qed.

Lemma load_result_Some params id_ s :
  is_virtual id_ -> exists text, load_result params id_ s = Some text.
Proof.
  intros Hv. destruct (load_result params id_ s) as [text|] eqn:Hr; [by exists text|].
  apply load_result_None in Hr. contradiction.
Qed.

Lemma load_result_local tables seedFiles srcDir root id_ s :
  is_virtual id_ ->
  load_result (LocalParams tables seedFiles srcDir root) id_ s =
  Some (getLocalVirtualModContents (tables_get tables s) root
          (seedFiles_get seedFiles s) (String.eqb id_ (seedVirtual resolved))).
Proof.
  unfold load_result.
  intros [->| ->]; rewrite String.eqb_refl; [reflexivity|].
  by rewrite andb_false_r.
Qed.

Lemma resolveId_range params this id_ rawImporter rid :
  resolveId params this id_ rawImporter = Some rid -> is_virtual rid.
Proof.
  unfold resolveId, is_virtual.
  destruct (negb (String.eqb id_ VIRTUAL_MODULE_ID)); [discriminate|].
  destruct (connectToStudio params); [intros [= <-]; by left|].
  destruct (match truthy rawImporter with
            | Some raw => this_resolve this raw
            | None => None
            end) as [r|]; [|intros [= <-]; by left].
  destruct (JS.startsWith (id r) (srcDirPath params)); intros [= <-]; auto.
Qed.

(** What [load] returns, when it returns, is decided in the session it
    started in. *)
Lemma load_returned params id_ w r :
  fst (load params id_ w) = Returned r ->
  r = load_result params id_ (session w).
Proof.
  destruct (in_dec string_dec id_ (seedFilePaths params)) as [Hin|Hout].
  - rewrite (load_seed_file _ _ _ Hin).
    pose proof (recreateTables_session (local_client params)
                  (tables_get (params_tables params) (session w)) w) as Hs.
    destruct (recreateTables _ _ _) as [[u|e] w']; simpl in *; [|discriminate].
    intros [= <-]. by rewrite Hs.
  - rewrite (load_other _ _ _ Hout). simpl. by intros [= <-].
Qed.

(** X1. For an id that is not a seed file path, [load] never throws and
    leaves the database, the session and the record of calls as they were;
    it returns nothing exactly when the id is neither virtual id. *)
Theorem load_other_id_touches_nothing params id_ w :
  ~ In id_ (seedFilePaths params) ->
  exists r,
    load params id_ w = (Returned r, w) /\
    (r = None <-> ~ is_virtual id_).
Proof.
  intros Hout. exists (load_result params id_ (session w)).
  split; [by apply load_other|apply load_result_None].
Qed.

(** X2. Whenever [load] returns, for a seed file path as for any other
    id, it returns module text exactly when the id is one of the two
    virtual ids. *)
Theorem load_serves_virtual_ids_only params id_ w r :
  fst (load params id_ w) = Returned r ->
  (r = None <-> ~ is_virtual id_).
Proof.
  intros Hr. rewrite (load_returned _ _ _ _ Hr). apply load_result_None.
Qed.

(** X3. Every id [resolveId] hands out is one of the two virtual ids, and
    [load] serves it: when [load] returns for it, it returns module text,
    and it does return, touching nothing, unless the id is a seed file
    path. *)
Theorem resolved_id_is_served params this id_ rawImporter rid w :
  resolveId params this id_ rawImporter = Some rid ->
  is_virtual rid /\
  (forall r, fst (load params rid w) = Returned r -> exists text, r = Some text) /\
  (~ In rid (seedFilePaths params) ->
   exists text, load params rid w = (Returned (Some text), w)).
Proof.
  intros Hres. pose proof (resolveId_range _ _ _ _ _ Hres) as Hv.
  split; [exact Hv|]. split.
  - intros r Hr. rewrite (load_returned _ _ _ _ Hr). by apply load_result_Some.
  - intros Hout. destruct (load_result_Some params rid (session w) Hv) as [text Ht].
    exists text. by rewrite (load_other _ _ _ Hout), Ht.
Qed.

(** X4. In local mode, resolving the reserved specifier and loading the
    result gives the local module rendered with the seed invocation exactly
    when the importer resolves under the source directory (the virtual ids
    being different and no seed file path). *)
Theorem importer_decides_seeded_module tables seedFiles srcDir root this
    rawImporter w :
  let params := LocalParams tables seedFiles srcDir root in
  VIRTUAL_MODULE_ID <> WITH_SEED_VIRTUAL_MODULE_ID ->
  ~ In (virtual resolved) (seedFilePaths params) ->
  ~ In (seedVirtual resolved) (seedFilePaths params) ->
  exists rid shouldSeed,
    resolveId params this VIRTUAL_MODULE_ID rawImporter = Some rid /\
    load params rid w =
      (Returned (Some (getLocalVirtualModContents
                         (tables_get tables (session w)) root
                         (seedFiles_get seedFiles (session w)) shouldSeed)), w) /\
    (shouldSeed = true <-> importer_in_src params this rawImporter).
Proof.
  intros params Hdiff Hv Hs. subst params.
  destruct (resolveId_local (LocalParams tables seedFiles srcDir root)
              this rawImporter eq_refl) as [Hin Hout].
  destruct (importer_in_src_dec (LocalParams tables seedFiles srcDir root)
              this rawImporter) as [Hyes|Hno].
  - exists (seedVirtual resolved), true. split; [by apply Hin|]. split; [|done].
    rewrite (load_other _ _ _ Hs), load_result_local by (by right).
    by rewrite String.eqb_refl.
  - exists (virtual resolved), false. split; [by apply Hout|]. split; [|by split].
    rewrite (load_other _ _ _ Hv), load_result_local by (by left).
    assert (Hne : virtual resolved <> seedVirtual resolved).
    { intros Heq. apply Hdiff.
      by apply (NUL_prefix_inj VIRTUAL_MODULE_ID WITH_SEED_VIRTUAL_MODULE_ID). }
    apply String.eqb_neq in Hne. by rewrite Hne.
Qed.


(** X6. One [load] submits at most one batch, and none for an id that is
    not a seed file path. *)
Theorem load_at_most_one_batch params id_ w :
  exists added,
    calls_after (load params id_) w = calls w ++ added /\
    length (batches added) <= 1 /\
    (~ In id_ (seedFilePaths params) -> added = []).
Proof.
  unfold calls_after.
  destruct (in_dec string_dec id_ (seedFilePaths params)) as [Hin|Hout].
  - rewrite (load_seed_file _ _ _ Hin), recreateTables_unfold.
    destruct (all_statements _) as [qs|e].
    + cbn zeta. destruct (engine_batch _ _ _) as [[u|e] s]; simpl;
        eexists; (split; [reflexivity|]); (split; [simpl; lia|done]).
    + simpl. eexists. split; [reflexivity|]. split; [simpl; lia|done].
  - rewrite (load_other _ _ _ Hout). exists []. simpl.
    rewrite app_nil_r. split; [reflexivity|]. split; [lia|done].
Qed.

End FurtherLoad.

(** ** The statements of a re-creation *)

Section FurtherRecreate.

Context {H : Host} {E : Engine}.

Implicit Types (db : SqliteDB) (tables : DBTables) (w : World).

Lemma all_statements_length entries qs :
  all_statements entries = Returned qs ->
  length qs = sum_list_with pushed_count entries.
Proof.
  revert qs. induction entries as [|[n t] entries IH]; intros qs.
  - by intros [= <-].
  - cbn [all_statements table_statements sum_list_with]. unfold pushed_count at 1.
    cbn [fst snd].
    destruct (getCreateTableQuery n t) as [c|e]; [|discriminate].
    destruct (getCreateIndexQueries n t) as [ixs|e]; [|discriminate].
    cbn [obind].
    destruct (all_statements entries) as [bs|e]; [|discriminate].
    cbn [obind]. intros [= <-].
    rewrite <- (IH bs eq_refl). simpl. rewrite length_app, length_map. lia.
Qed.

Lemma all_statements_blocks entries qs :
  all_statements entries = Returned qs ->
  exists blocks, Forall2 pushed_block entries blocks /\ qs = concat blocks.
Proof.
  revert qs. induction entries as [|[n t] entries IH]; intros qs.
  - intros [= <-]. exists []. by split; [constructor|].
  - cbn [all_statements table_statements].
    destruct (getCreateTableQuery n t) as [c|e] eqn:Hc; [|discriminate].
    destruct (getCreateIndexQueries n t) as [ixs|e] eqn:Hi; [|discriminate].
    cbn [obind].
    destruct (all_statements entries) as [bs|e]; [|discriminate].
    cbn [obind]. intros [= <-].
    destruct (IH bs eq_refl) as (blocks & Hblocks & ->).
    exists ((dropQuery n :: sql_raw c :: List.map sql_raw ixs) :: blocks).
    split; [|reflexivity].
    constructor; [|exact Hblocks]. by exists c, ixs.
Qed.

(** X7. When the loop of [recreateTables] completes, [setupQueries] is,
    table after table in the order of [Object.entries], the DROP of the
    table, its CREATE and its index statements, and nothing else; so its
    length is the sum over the tables of two plus the number of index
    statements. *)
Theorem setup_queries_blocks tables setupQueries :
  setup_loop (JS.Object_entries tables) [] = Returned setupQueries ->
  exists blocks,
    Forall2 pushed_block (JS.Object_entries tables) blocks /\
    setupQueries = concat blocks /\
    length setupQueries = sum_list_with pushed_count tables.
Proof.
  rewrite setup_loop_all_statements.
  destruct (all_statements (JS.Object_entries tables)) as [qs|e] eqn:Hqs;
    [|discriminate].
  simpl. intros [= <-].
  destruct (all_statements_blocks _ _ Hqs) as (blocks & Hblocks & Hconcat).
  exists blocks. split; [exact Hblocks|]. split; [exact Hconcat|].
  rewrite (all_statements_length _ _ Hqs).
  apply sum_list_with_Permutation_proper, Object_entries_perm.
Qed.

Lemma all_statements_translated entries :
  Forall (fun entry => translates entry = true) entries ->
  exists qs, all_statements entries = Returned qs.
Proof.
  induction 1 as [|[n t] entries Ht Hall [qs Hqs]]; [by exists []|].
  unfold translates in Ht. cbn [fst snd] in Ht.
  cbn [all_statements table_statements].
  destruct (getCreateTableQuery n t) as [c|e]; [|discriminate].
  destruct (getCreateIndexQueries n t) as [ixs|e]; [|discriminate].
  rewrite Hqs. simpl. eauto.
Qed.

Lemma all_statements_app_thrown before entry after e :
  (exists qs, all_statements before = Returned qs) ->
  table_statements entry = Thrown e ->
  all_statements (before ++ entry :: after) = Thrown e.
Proof.
  intros [qs Hqs] He. revert qs Hqs.
  induction before as [|x before IH]; intros qs Hqs.
  - simpl. by rewrite He.
  - cbn [app all_statements] in *.
    destruct (table_statements x) as [b|e']; [|discriminate].
    cbn [obind] in *.
    destruct (all_statements before) as [bs|e']; [|discriminate].
    by rewrite (IH bs eq_refl).
Qed.

(** X8. When the generators translate the tables that come first in the
    order of [Object.entries] and one of them throws on the next table,
    [recreateTables] throws that error (the error of the CREATE generator
    before that of the index generator) and submits no batch: the
    statements already built are dropped and the database is not
    touched. *)
Theorem recreateTables_first_error db tables w before entry after e :
  JS.Object_entries tables = before ++ entry :: after ->
  Forall (fun x => translates x = true) before ->
  getCreateTableQuery (fst entry) (snd entry) = Thrown e \/
  (exists createText,
     getCreateTableQuery (fst entry) (snd entry) = Returned createText) /\
  getCreateIndexQueries (fst entry) (snd entry) = Thrown e ->
  recreateTables db tables w = (Thrown e, logged (Call_recreateTables db) w) /\
  store (snd (recreateTables db tables w)) = store w /\
  batches (calls_after (recreateTables db tables) w) = batches (calls w).
Proof.
  intros Hsplit Hbefore Hthrow.
  assert (He : table_statements entry = Thrown e).
  { destruct entry as [n t]. cbn [fst snd] in Hthrow. cbn [table_statements].
    destruct Hthrow as [->|[[c ->] ->]]; reflexivity. }
  assert (Hrun : recreateTables db tables w =
                 (Thrown e, logged (Call_recreateTables db) w)).
  { rewrite recreateTables_unfold, Hsplit.
    by rewrite (all_statements_app_thrown _ _ _ _
                  (all_statements_translated _ Hbefore) He). }
  split; [exact Hrun|]. unfold calls_after. rewrite Hrun. simpl.
  split; [reflexivity|].
  induction (calls w) as [|[d|d stmts] cs IH]; simpl; [reflexivity|exact IH|].
  by rewrite IH.
Qed.

Lemma all_statements_belong entries qs :
  all_statements entries = Returned qs ->
  Forall (fun q => exists entry, In entry entries /\ statement_of entry q) qs.
Proof.
  revert qs. induction entries as [|[n t] entries IH]; intros qs.
  - intros [= <-]. constructor.
  - cbn [all_statements table_statements].
    destruct (getCreateTableQuery n t) as [c|e] eqn:Hc; [|discriminate].
    destruct (getCreateIndexQueries n t) as [ixs|e] eqn:Hi; [|discriminate].
    cbn [obind].
    destruct (all_statements entries) as [bs|e]; [|discriminate].
    cbn [obind]. intros [= <-].
    change (Forall (fun q => exists entry, In entry ((n, t) :: entries) /\
                                          statement_of entry q)
              ([dropQuery n; sql_raw c] ++ List.map sql_raw ixs ++ bs)).
    rewrite !Forall_app. split; [|split].
    + constructor; [|constructor; [|constructor]];
        exists (n, t); (split; [by left|]); unfold statement_of; cbn [fst snd sql_text].
      * by left.
      * right. by left.
    + rewrite Forall_map. apply Forall_forall. intros text Htext.
      exists (n, t). split; [by left|]. unfold statement_of. cbn [fst snd sql_text].
      right. right. exists ixs. split; [exact Hi|].
      by apply list_elem_of_In.
    + eapply Forall_impl; [exact (IH bs eq_refl)|].
      intros q (entry & Hin & Hq). exists entry. split; [by right|exact Hq].
Qed.

(** X9. Every statement [recreateTables] builds is one generated for a
    table of the mapping: the DROP of that table, its CREATE or one of its
    index statements. The batch drops no table the mapping does not
    declare. *)
Theorem setup_queries_belong_to_tables tables setupQueries :
  setup_loop (JS.Object_entries tables) [] = Returned setupQueries ->
  Forall (fun q => exists entry, In entry tables /\ statement_of entry q)
    setupQueries.
Proof.
  rewrite setup_loop_all_statements.
  destruct (all_statements (JS.Object_entries tables)) as [qs|e] eqn:Hqs;
    [|discriminate].
  simpl. intros [= <-].
  eapply Forall_impl; [exact (all_statements_belong _ _ Hqs)|].
  intros q (entry & Hin & Hq). exists entry. split; [|exact Hq].
  by apply (Permutation_in _ (Object_entries_perm tables)).
Qed.

(** X10. With no table in the mapping [recreateTables] still submits a
    batch: the statement deferring the foreign-key checks alone. *)
Theorem recreateTables_no_tables db w :
  calls_after (recreateTables db []) w =
  calls w ++ [Call_recreateTables db;
              Call_batch db [db_run db defer_foreign_keys]].
Proof.
  unfold calls_after. rewrite recreateTables_unfold.
  change (JS.Object_entries (V := DBTable) []) with (@nil (string * DBTable)).
  cbn [all_statements]. cbn zeta. by destruct (engine_batch _ _ _).
Qed.

End FurtherRecreate.

(** ** The texts of the modules *)

Section FurtherGenerators.

Context {H : Host}.

Implicit Types (tables : DBTables) (root : URL) (seedFiles : list SeedRef).

(** X11. The seeded local module is the unseeded one with the import of
    [seedLocal] and the seed invocation put in: the texts before, between
    and after these two pieces are the same, and do not depend on the
    integration seed files. *)
Theorem seeded_module_extends_unseeded tables root :
  exists a b c, forall seedFiles,
    getLocalVirtualModContents tables root seedFiles true =
      a +:+ seedLocalImport +:+ b +:+ seedLocalCall root seedFiles +:+ c /\
    getLocalVirtualModContents tables root seedFiles false = a +:+ b +:+ c.
Proof.
  exists (nl +:+ "import { asDrizzleTable, createLocalDatabaseClient } from " +:+
          RUNTIME_IMPORT +:+ ";" +:+ nl),
         (nl +:+ nl +:+ "const dbUrl = " +:+
          JSON_stringify_URL (URL_new DB_PATH root) +:+ ";" +:+ nl +:+
          dbExport +:+ nl +:+ nl),
         (nl +:+ nl +:+ "export * from " +:+ RUNTIME_CONFIG_IMPORT +:+ ";" +:+
          nl +:+ nl +:+ getStringifiedCollectionExports tables).
  intros seedFiles. unfold getLocalVirtualModContents.
  split; by rewrite ?string_app_assoc.
Qed.

(** X12. Both modules re-export what the configuration module exports:
    the text of [getConfigVirtualModContents], as a statement, stands in
    the local module (seeded or not) and in the remote module. *)
Theorem modules_reexport_config tables root seedFiles shouldSeed appToken :
  (exists p,
     occurs_at (getConfigVirtualModContents +:+ ";")
       (getLocalVirtualModContents tables root seedFiles shouldSeed) p) /\
  (exists p,
     occurs_at (getConfigVirtualModContents +:+ ";")
       (getStudioVirtualModContents tables appToken) p).
Proof.
  split.
  - destruct (local_text_split tables root seedFiles shouldSeed) as [head Htext].
    exists (String.length
              (head +:+ dbExport +:+ (nl +:+ nl) +:+
               (if shouldSeed then seedLocalCall root seedFiles else EmptyString) +:+
               (nl +:+ nl))).
    apply (occurs_at_split _ _ _
             ((nl +:+ nl) +:+ getStringifiedCollectionExports tables)).
    rewrite Htext. unfold configExport, getConfigVirtualModContents.
    by rewrite ?string_app_assoc.
  - exists (String.length
              (nl +:+ "import {asDrizzleTable, createRemoteDatabaseClient} from " +:+
               RUNTIME_IMPORT +:+ ";" +:+ nl +:+ nl +:+
               "export const db = await createRemoteDatabaseClient(" +:+
               JS.JSON_stringify_string appToken +:+ ", " +:+
               remoteUrlExpression +:+ ");" +:+ nl +:+ nl)).
    apply (occurs_at_split _ _ _
             (nl +:+ nl +:+ getStringifiedCollectionExports tables +:+ nl +:+ tab)).
    unfold getStudioVirtualModContents, getConfigVirtualModContents.
    by rewrite ?string_app_assoc.
Qed.

End FurtherGenerators.

(** ** The embedded database after a re-creation *)

Section FurtherIdempotence.

Import LocalDb LocalDbBlocks.

Context {H : Host} (parse : string -> option Statement)
  (valid : gmap string TableState -> bool).

Implicit Types (d : gmap string TableState) (sts : list Statement).

(** A list of blocks overrides exactly the tables it names. *)
Lemma run_blocks_names names sts :
  blocks names sts ->
  exists m : gmap string TableState,
    (forall d, run sts d = Some (m ∪ d)) /\
    (forall n, is_Some (m !! n) <-> In n names).
Proof.
  induction 1 as [|n ddl idxs names sts Hb (m & Hrun & Hnames)].
  - exists ∅. split.
    + intros d. simpl. by rewrite (left_id_L ∅ (∪)).
    + intros n. rewrite lookup_empty. split; [by intros [? ?]|intros []].
  - exists (m ∪ {[n := fresh ddl idxs]}). split.
    + intros d. rewrite run_app, run_table_block, Hrun.
      by rewrite insert_union_singleton_l, (assoc_L (∪)).
    + intros k. rewrite lookup_union_is_Some, Hnames, lookup_singleton_is_Some.
      simpl. split; [intros [?| ->]; auto|intros [->|?]; auto].
Qed.

Lemma batch_recreate_names url entries qs :
  reads_pragma parse (sql_text defer_foreign_keys) = true ->
  forallb (understands_table parse) entries = true ->
  all_statements entries = Returned qs ->
  (exists msg, forall d,
     batch parse valid url (defer_foreign_keys :: qs) d = (Thrown msg, d)) \/
  (exists (m : gmap string TableState) msg,
     (forall d, batch parse valid url (defer_foreign_keys :: qs) d =
                if valid (m ∪ d) then (Returned tt, m ∪ d) else (Thrown msg, d)) /\
     (forall n, is_Some (m !! n) <-> In n (List.map fst entries))).
Proof.
  intros Hp Hall Hqs. unfold batch. cbn [read].
  unfold reads_pragma in Hp.
  destruct (parse (sql_text defer_foreign_keys)) as [[| | |]|]; try discriminate.
  destruct (read parse qs) as [sts|] eqn:Hsts.
  - right. destruct (run_blocks_names _ _ (read_all parse entries qs sts Hall Hqs Hsts))
      as (m & Hrun & Hnames).
    exists m. eexists. split; [|exact Hnames].
    intros d. cbn [run step]. rewrite Hrun. reflexivity.
  - left. eexists. reflexivity.
Qed.

(** What a run does to the store: nothing when it fails, and when it
    succeeds an override of tables of the mapping only. *)
Lemma recreateTables_store db (tables : DBTables) :
  understands parse tables = true ->
  exists m : gmap string TableState,
    (forall n, is_Some (m !! n) -> In n (List.map fst tables)) /\
    forall w : World (E := engine parse valid),
      let run := recreateTables (E := engine parse valid) db tables w in
      (fst run = Returned tt /\ store (snd run) = m ∪ store w) \/
      (fst run <> Returned tt /\ store (snd run) = store w).
Proof.
  intros [Hp Hall]%andb_prop.
  assert (Hentries : forallb (understands_table parse) (JS.Object_entries tables) = true).
  { apply forallb_forall. intros e He. rewrite forallb_forall in Hall. apply Hall.
    by apply (Permutation_in _ (Object_entries_perm tables)). }
  destruct (all_statements (JS.Object_entries tables)) as [qs|e] eqn:Hqs.
  - destruct (batch_recreate_names (dbUrl db) _ qs Hp Hentries Hqs)
      as [[msg Hfail]|(m & msg & Hok & Hnames)].
    + exists ∅. split; [intros n [st Hst]; by rewrite lookup_empty in Hst|].
      intros w. right.
      rewrite (recreateTables_unfold (E := engine parse valid)), Hqs.
      cbn zeta. cbn [engine_batch engine]. rewrite pending_sql_db_run, Hfail.
      by split.
    + exists m. split.
      * intros n Hin. apply Hnames in Hin.
        apply in_map_iff in Hin as (x & <- & Hx). apply in_map.
        by apply (Permutation_in _ (Object_entries_perm tables)).
      * intros w.
        rewrite (recreateTables_unfold (E := engine parse valid)), Hqs.
        cbn zeta. cbn [engine_batch engine]. rewrite pending_sql_db_run, Hok.
        destruct (valid (m ∪ store w)); [left|right]; by split.
  - exists ∅. split; [intros n [st Hst]; by rewrite lookup_empty in Hst|].
    intros w. right.
    rewrite (recreateTables_unfold (E := engine parse valid)), Hqs. by split.
Qed.

(** X13. On the embedded database, [recreateTables] leaves every table
    that the mapping does not name as it was, definition, indexes and rows:
    a table removed from the mapping is not dropped. *)
Theorem recreateTables_keeps_other_tables db (tables : DBTables)
    (w : World (E := engine parse valid)) n :
  understands parse tables = true ->
  ~ In n (List.map fst tables) ->
  (store (snd (recreateTables (E := engine parse valid) db tables w))
     : gmap string TableState) !! n =
  (store w : gmap string TableState) !! n.
Proof.
  intros Hu Hn.
  destruct (recreateTables_store db tables Hu) as (m & Hnames & Hr).
  destruct (Hr w) as [(_ & ->)|(_ & ->)]; [|reflexivity].
  apply lookup_union_r. apply eq_None_not_Some. intros Hsome.
  by apply Hn, Hnames.
Qed.

End FurtherIdempotence.

(** *** Instances of the further properties *)

(** Loading a page of the project touches nothing and returns nothing. *)
Lemma load_other_id_touches_nothing_witness :
  ~ In "/proj/src/pages/index.astro" (seedFilePaths Demo.local_params) /\
  load Demo.local_params "/proj/src/pages/index.astro" (Demo.world Demo.tables []) =
    (Returned None, Demo.world Demo.tables []).
Proof.
  assert (Hout : ~ In "/proj/src/pages/index.astro" (seedFilePaths Demo.local_params)).
  { vm_compute. intros [Heq|[Heq|[Heq|[Heq|[]]]]]; discriminate Heq. }
  split; [exact Hout|].
  destruct (load_other_id_touches_nothing Demo.local_params
              "/proj/src/pages/index.astro" (Demo.world Demo.tables []) Hout)
    as (r & Hload & Hnone).
  rewrite Hload. f_equal. f_equal. apply Hnone.
  intros [Heq|Heq]; vm_compute in Heq; discriminate Heq.
Defined.

(** Loading [db/seed.ts] returns, and returns nothing. *)
Lemma load_serves_virtual_ids_only_witness :
  fst (load Demo.local_params Demo.seed_ts (Demo.world Demo.tables [])) =
    Returned None /\
  ~ is_virtual Demo.seed_ts.
Proof.
  assert (Hr : fst (load Demo.local_params Demo.seed_ts (Demo.world Demo.tables [])) =
               Returned None) by reflexivity.
  split; [exact Hr|].
  by apply (load_serves_virtual_ids_only Demo.local_params Demo.seed_ts
              (Demo.world Demo.tables []) None Hr).
Defined.

(** The id resolved for a page under [src/] is served. *)
Lemma resolved_id_is_served_witness :
  resolveId Demo.local_params Demo.this "astro:db"
    (Some "/proj/src/pages/index.astro") = Some (seedVirtual resolved) /\
  is_virtual (H := Demo.host) (seedVirtual resolved).
Proof.
  assert (Hres : resolveId Demo.local_params Demo.this "astro:db"
                   (Some "/proj/src/pages/index.astro") =
                 Some (seedVirtual resolved)) by reflexivity.
  split; [exact Hres|].
  exact (proj1 (resolved_id_is_served Demo.local_params Demo.this "astro:db"
                  (Some "/proj/src/pages/index.astro") (seedVirtual resolved)
                  (Demo.world Demo.tables []) Hres)).
Defined.

(** On the concrete host the hypotheses hold: the virtual ids differ and
    are no seed file paths. *)
Lemma importer_decides_seeded_module_witness :
  VIRTUAL_MODULE_ID <> WITH_SEED_VIRTUAL_MODULE_ID /\
  ~ In (virtual resolved) (seedFilePaths Demo.local_params) /\
  ~ In (seedVirtual resolved) (seedFilePaths Demo.local_params) /\
  exists rid shouldSeed,
    resolveId Demo.local_params Demo.this VIRTUAL_MODULE_ID
      (Some Demo.seed_ts) = Some rid /\
    load Demo.local_params rid (Demo.world Demo.tables []) =
      (Returned (Some (getLocalVirtualModContents Demo.tables Demo.root []
                         shouldSeed)), Demo.world Demo.tables []) /\
    (shouldSeed = true <->
     importer_in_src Demo.local_params Demo.this (Some Demo.seed_ts)).
Proof.
  assert (Hdiff : VIRTUAL_MODULE_ID <> WITH_SEED_VIRTUAL_MODULE_ID).
  { vm_compute. discriminate. }
  assert (Hv : ~ In (virtual resolved) (seedFilePaths Demo.local_params)).
  { vm_compute. intros [Heq|[Heq|[Heq|[Heq|[]]]]]; discriminate Heq. }
  assert (Hs : ~ In (seedVirtual resolved) (seedFilePaths Demo.local_params)).
  { vm_compute. intros [Heq|[Heq|[Heq|[Heq|[]]]]]; discriminate Heq. }
  split; [exact Hdiff|]. split; [exact Hv|]. split; [exact Hs|].
  exact (importer_decides_seeded_module Demo.late_tables Demo.late_seeds
           Demo.srcDir Demo.root Demo.this (Some Demo.seed_ts)
           (Demo.world Demo.tables []) Hdiff Hv Hs).
Defined.


(** The concrete mapping pushes the three statements of [users], then
    the two of [posts]. *)
Lemma setup_queries_blocks_witness :
  exists setupQueries,
    setup_loop (H := Demo.host) (JS.Object_entries Demo.tables) [] = Returned setupQueries /\
    List.map sql_text setupQueries =
      ["DROP TABLE IF EXISTS " +:+ Demo.esc "users";
       "CREATE TABLE " +:+ Demo.esc "users" +:+ " (" +:+ Demo.esc "id" +:+
         " integer, " +:+ Demo.esc "name" +:+ " text)";
       "CREATE INDEX " +:+ Demo.esc "users_name_idx" +:+ " ON " +:+
         Demo.esc "users" +:+ " (" +:+ Demo.esc "name" +:+ ")";
       "DROP TABLE IF EXISTS " +:+ Demo.esc "posts";
       "CREATE TABLE " +:+ Demo.esc "posts" +:+ " (" +:+ Demo.esc "id" +:+
         " integer, " +:+ Demo.esc "author" +:+ " integer)"] /\
    length setupQueries = 5.
Proof.
  destruct (setup_loop (H := Demo.host) (JS.Object_entries Demo.tables) []) as [qs|e] eqn:Hqs.
  - exists qs. split; [reflexivity|].
    destruct (setup_queries_blocks (H := Demo.host) Demo.tables qs Hqs)
      as (blocks & _ & _ & Hlength).
    split; [|exact Hlength].
    vm_compute in Hqs. injection Hqs as <-. reflexivity.
  - vm_compute in Hqs. discriminate Hqs.
Defined.

(** A mapping whose second table cannot be translated. *)
Lemma recreateTables_first_error_witness :
  let ts := [("users", Demo.users); ("drafts", Demo.broken)] in
  fst (recreateTables Demo.client ts (Demo.world ts [])) =
    Thrown "Unsupported column type in table drafts".
Proof.
  intros ts.
  destruct (recreateTables_first_error (H := Demo.host) (E := Demo.engine)
              Demo.client ts (Demo.world ts [])
              [("users", Demo.users)] ("drafts", Demo.broken) []
              "Unsupported column type in table drafts") as (Hrun & _).
  - reflexivity.
  - repeat constructor.
  - left. reflexivity.
  - by rewrite Hrun.
Defined.

(** Every statement pushed for the concrete mapping belongs to one of its
    tables. *)
Lemma setup_queries_belong_to_tables_witness :
  exists setupQueries,
    setup_loop (H := Demo.host) (JS.Object_entries Demo.tables) [] = Returned setupQueries /\
    Forall (fun q => exists entry, In entry Demo.tables /\ statement_of (H := Demo.host) entry q)
      setupQueries.
Proof.
  destruct (setup_loop (H := Demo.host) (JS.Object_entries Demo.tables) []) as [qs|e] eqn:Hqs.
  - exists qs. split; [reflexivity|].
    exact (setup_queries_belong_to_tables (H := Demo.host) Demo.tables qs Hqs).
  - vm_compute in Hqs. discriminate Hqs.
Defined.

(** A database that holds a table [legacy], with a row, which the mapping
    does not name. *)
Lemma recreateTables_keeps_other_tables_witness :
  let legacy := {| LocalDb.definition := "CREATE TABLE legacy (id integer)";
                   LocalDb.indexes := [];
                   LocalDb.rows := [["1"]] |} in
  let w := {| session := (Demo.tables, []) : Session;
              store := ({["legacy" := legacy]} : gmap string LocalDb.TableState);
              calls := [] |} in
  understands Demo.parse Demo.tables = true /\
  (store (snd (recreateTables Demo.client Demo.tables w))
     : gmap string LocalDb.TableState) !! "legacy" = Some legacy.
Proof.
  intros legacy w.
  assert (Hu : understands Demo.parse Demo.tables = true) by reflexivity.
  split; [exact Hu|].
  assert (Hn : ~ In "legacy" (List.map fst Demo.tables)).
  { vm_compute. intros [Heq|[Heq|[]]]; discriminate Heq. }
  exact (eq_trans
           (recreateTables_keeps_other_tables (H := Demo.host) Demo.parse Demo.valid
              Demo.client Demo.tables w "legacy" Hu Hn)
           eq_refl).
Defined.
